(** * SlimTrie: the read-side query engine over the packed representation

    A shallow embedding of the lookup code of package [trie]: the node
    decoder ([getNode], [getLeafPrefix]), label extraction and child
    resolution ([getLabelIdxOfKey], [getLeftChildID]), the exact descent
    ([GetID]), the three-way descent ([searchID], [leftMost], [rightMost])
    and the public queries ([Get], [RangeGet], [Search]).

    Go's [int32] values are integers of [Z] wrapped by [i32]; [uint64] words
    are integers of [Z] wrapped by [u64].  Code that may panic returns a
    [result]; the [for] loops, which have no bound in the source, run on
    fuel. *)

From Stdlib Require Import ZArith List Bool Lia.
From Stdlib Require Import Strings.Byte.
Import ListNotations.
Local Open Scope Z_scope.

(** ** Outcomes of Go code *)

Inductive panic : Type :=
| IndexOutOfRange
| NilPointer
| Impossible.

Inductive result (A : Type) : Type :=
| Ok (a : A)
| Panic (p : panic)
| OutOfFuel.

Arguments Ok {A} a.
Arguments Panic {A} p.
Arguments OutOfFuel {A}.

Definition bind {A B : Type} (m : result A) (k : A -> result B) : result B :=
  match m with
  | Ok a => k a
  | Panic p => Panic p
  | OutOfFuel => OutOfFuel
  end.

Notation "x <- m ;; k" := (bind m (fun x => k))
  (at level 61, m at next level, right associativity).
Notation "' p <- m ;; k" := (bind m (fun p => k))
  (at level 61, p pattern, m at next level, right associativity).

(** A [for { ... }] loop: the body either goes round again, leaves the loop
    with [break], or leaves the function with [return]. *)
Inductive ctl (S R : Type) : Type :=
| Next (s : S)
| Brk (s : S)
| Return (r : R).

Arguments Next {S R} s.
Arguments Brk {S R} s.
Arguments Return {S R} r.

Fixpoint loop {S R : Type} (body : S -> result (ctl S R)) (fuel : nat) (s : S)
  : result (S + R) :=
  match fuel with
  | O => OutOfFuel
  | Datatypes.S n =>
      c <- body s ;;
      match c with
      | Next s' => loop body n s'
      | Brk s' => Ok (inl s')
      | Return r => Ok (inr r)
      end
  end.

(** ** Machine integers *)

Definition i32 (z : Z) : Z := (z + 2 ^ 31) mod 2 ^ 32 - 2 ^ 31.
Definition u64 (z : Z) : Z := z mod 2 ^ 64.

Definition byte_val (b : byte) : Z := Z.of_N (Byte.to_N b).

(** [bits.OnesCount64]. *)
Fixpoint ones_below (n : nat) (w : Z) : Z :=
  match n with
  | O => 0
  | Datatypes.S k => ones_below k w + Z.b2z (Z.testbit w (Z.of_nat k))
  end.

Definition OnesCount64 (w : Z) : Z := ones_below 64 w.

(** ** Slices and strings *)

Definition len {A : Type} (l : list A) : Z := Z.of_nat (length l).

(** [l[i]]: panics outside [0, len l). *)
Definition index {A : Type} (l : list A) (i : Z) : result A :=
  if i <? 0 then Panic IndexOutOfRange
  else match nth_error l (Z.to_nat i) with
       | Some a => Ok a
       | None => Panic IndexOutOfRange
       end.

(** [l[lo:hi]]: panics unless [0 <= lo <= hi <= len l] (the capacity of a
    slice is taken to be its length). *)
Definition slice {A : Type} (l : list A) (lo hi : Z) : result (list A) :=
  if (0 <=? lo) && (lo <=? hi) && (hi <=? len l)
  then Ok (firstn (Z.to_nat (hi - lo)) (skipn (Z.to_nat lo) l))
  else Panic IndexOutOfRange.

(** [l[lo:]]. *)
Definition slice_from {A : Type} (l : list A) (lo : Z) : result (list A) :=
  slice l lo (len l).

(** [bytes.Compare] and [bytes.Equal] of the Go standard library. *)
Fixpoint bytes_Compare (a b : list byte) : Z :=
  match a, b with
  | [], [] => 0
  | [], _ :: _ => -1
  | _ :: _, [] => 1
  | x :: a', y :: b' =>
      if byte_val x <? byte_val y then -1
      else if byte_val y <? byte_val x then 1
      else bytes_Compare a' b'
  end.

Definition bytes_Equal (a b : list byte) : bool :=
  if list_eq_dec Byte.byte_eq_dec a b then true else false.

(** [bitmap.Mask[j]] and [bitmap.Bit[j]]: tables of 65 and 64 words. *)
Definition bitmap_Mask (j : Z) : result Z :=
  if (0 <=? j) && (j <=? 64) then Ok (2 ^ j - 1) else Panic IndexOutOfRange.

Definition bitmap_Bit (j : Z) : result Z :=
  if (0 <=? j) && (j <? 64) then Ok (2 ^ j) else Panic IndexOutOfRange.

(** ** The bit library the trie is built on

    [bitmap.Rank64], [bitmap.Rank128], [bitmap.Select32R64],
    [bitstr.StrCmpUpto] and [bitstr.Len] belong to an external package.
    The query code is embedded over any implementation of them; [low_model]
    below gives the implementation that follows their contracts. *)
Class Low : Type := {
  bitmap_Rank64 : list Z -> list Z -> Z -> result (Z * Z);
  bitmap_Rank128 : list Z -> list Z -> Z -> result (Z * Z);
  bitmap_Select32R64 : list Z -> list Z -> list Z -> Z -> result (Z * Z);
  bitstr_StrCmpUpto : list byte -> list byte -> result Z;
  bitstr_Len : list byte -> result Z
}.

(** ** The packed representation *)

Record Bitmap : Type := {
  Words : list Z;
  RankIndex : list Z;
  SelectIndex : list Z
}.

Record VLenArray : Type := {
  N : Z;
  EltCnt : Z;
  PresenceBM : Bitmap;
  PositionBM : option Bitmap;
  FixedSize : Z;
  Bytes : list byte
}.

(** [NodeTypeBM], [LeafPrefixes], [Leaves] and [PositionBM] are the pointers
    the query code tests against [nil]; the others are dereferenced without a
    test and are taken to be set. *)
Record Slim : Type := {
  BigInnerCnt : Z;
  ShortSize : Z;
  NodeTypeBM : option Bitmap;
  Inners : Bitmap;
  ShortBM : Bitmap;
  ShortTable : list Z;
  InnerPrefixes : VLenArray;
  LeafPrefixes : option VLenArray;
  Leaves : option VLenArray
}.

Record slimVars : Type := {
  BigInnerOffset : Z;
  ShortMinusInner : Z;
  ShortMask : Z
}.

(** The value codec: [Decode] yields the bytes consumed and the value, an
    [interface{}] that may be [nil] ([None]). *)
Record Encoder (V : Type) : Type := {
  Decode : list byte -> Z * option V;
  GetEncodedSize : Z
}.

Arguments Decode {V} e bs.
Arguments GetEncodedSize {V} e.

Record SlimTrie (V : Type) : Type := {
  inner : Slim;
  vars : slimVars;
  encoder : Encoder V
}.

Arguments inner {V} s.
Arguments vars {V} s.
Arguments encoder {V} s.

Record querySession : Type := {
  keyBitLen : Z;
  key : list byte;
  wordSize : Z;
  from : Z;
  to : Z;
  bm : Z;
  isInner : Z;
  ithInner : Z;
  hasInnerPrefix : bool;
  innerPrefixLen : Z;
  innerPrefix : list byte;
  ithLeaf : Z;
  hasLeafPrefix : bool;
  leafPrefix : list byte
}.

(** The zero value [&querySession{keyBitLen: l, key: key}]. *)
Definition newSession (l : Z) (k : list byte) : querySession :=
  {| keyBitLen := l; key := k; wordSize := 0; from := 0; to := 0; bm := 0;
     isInner := 0; ithInner := 0; hasInnerPrefix := false;
     innerPrefixLen := 0; innerPrefix := []; ithLeaf := 0;
     hasLeafPrefix := false; leafPrefix := [] |}.

(** Field updates of the scratch record, which the source mutates in place. *)
Definition set_wordSize (q : querySession) (v : Z) : querySession :=
  {| keyBitLen := keyBitLen q; key := key q; wordSize := v; from := from q;
     to := to q; bm := bm q; isInner := isInner q; ithInner := ithInner q;
     hasInnerPrefix := hasInnerPrefix q; innerPrefixLen := innerPrefixLen q;
     innerPrefix := innerPrefix q; ithLeaf := ithLeaf q;
     hasLeafPrefix := hasLeafPrefix q; leafPrefix := leafPrefix q |}.

Definition set_from (q : querySession) (v : Z) : querySession :=
  {| keyBitLen := keyBitLen q; key := key q; wordSize := wordSize q; from := v;
     to := to q; bm := bm q; isInner := isInner q; ithInner := ithInner q;
     hasInnerPrefix := hasInnerPrefix q; innerPrefixLen := innerPrefixLen q;
     innerPrefix := innerPrefix q; ithLeaf := ithLeaf q;
     hasLeafPrefix := hasLeafPrefix q; leafPrefix := leafPrefix q |}.

Definition set_to (q : querySession) (v : Z) : querySession :=
  {| keyBitLen := keyBitLen q; key := key q; wordSize := wordSize q;
     from := from q; to := v; bm := bm q; isInner := isInner q;
     ithInner := ithInner q; hasInnerPrefix := hasInnerPrefix q;
     innerPrefixLen := innerPrefixLen q; innerPrefix := innerPrefix q;
     ithLeaf := ithLeaf q; hasLeafPrefix := hasLeafPrefix q;
     leafPrefix := leafPrefix q |}.

Definition set_bm (q : querySession) (v : Z) : querySession :=
  {| keyBitLen := keyBitLen q; key := key q; wordSize := wordSize q;
     from := from q; to := to q; bm := v; isInner := isInner q;
     ithInner := ithInner q; hasInnerPrefix := hasInnerPrefix q;
     innerPrefixLen := innerPrefixLen q; innerPrefix := innerPrefix q;
     ithLeaf := ithLeaf q; hasLeafPrefix := hasLeafPrefix q;
     leafPrefix := leafPrefix q |}.

Definition set_rank (q : querySession) (ith isIn : Z) : querySession :=
  {| keyBitLen := keyBitLen q; key := key q; wordSize := wordSize q;
     from := from q; to := to q; bm := bm q; isInner := isIn;
     ithInner := ith; hasInnerPrefix := hasInnerPrefix q;
     innerPrefixLen := innerPrefixLen q; innerPrefix := innerPrefix q;
     ithLeaf := ithLeaf q; hasLeafPrefix := hasLeafPrefix q;
     leafPrefix := leafPrefix q |}.

Definition set_hasInnerPrefix (q : querySession) (v : bool) : querySession :=
  {| keyBitLen := keyBitLen q; key := key q; wordSize := wordSize q;
     from := from q; to := to q; bm := bm q; isInner := isInner q;
     ithInner := ithInner q; hasInnerPrefix := v;
     innerPrefixLen := innerPrefixLen q; innerPrefix := innerPrefix q;
     ithLeaf := ithLeaf q; hasLeafPrefix := hasLeafPrefix q;
     leafPrefix := leafPrefix q |}.

Definition set_innerPrefixLen (q : querySession) (v : Z) : querySession :=
  {| keyBitLen := keyBitLen q; key := key q; wordSize := wordSize q;
     from := from q; to := to q; bm := bm q; isInner := isInner q;
     ithInner := ithInner q; hasInnerPrefix := hasInnerPrefix q;
     innerPrefixLen := v; innerPrefix := innerPrefix q;
     ithLeaf := ithLeaf q; hasLeafPrefix := hasLeafPrefix q;
     leafPrefix := leafPrefix q |}.

Definition set_innerPrefix (q : querySession) (v : list byte) : querySession :=
  {| keyBitLen := keyBitLen q; key := key q; wordSize := wordSize q;
     from := from q; to := to q; bm := bm q; isInner := isInner q;
     ithInner := ithInner q; hasInnerPrefix := hasInnerPrefix q;
     innerPrefixLen := innerPrefixLen q; innerPrefix := v;
     ithLeaf := ithLeaf q; hasLeafPrefix := hasLeafPrefix q;
     leafPrefix := leafPrefix q |}.

Definition set_ithLeaf (q : querySession) (v : Z) : querySession :=
  {| keyBitLen := keyBitLen q; key := key q; wordSize := wordSize q;
     from := from q; to := to q; bm := bm q; isInner := isInner q;
     ithInner := ithInner q; hasInnerPrefix := hasInnerPrefix q;
     innerPrefixLen := innerPrefixLen q; innerPrefix := innerPrefix q;
     ithLeaf := v; hasLeafPrefix := hasLeafPrefix q;
     leafPrefix := leafPrefix q |}.

Definition set_hasLeafPrefix (q : querySession) (v : bool) : querySession :=
  {| keyBitLen := keyBitLen q; key := key q; wordSize := wordSize q;
     from := from q; to := to q; bm := bm q; isInner := isInner q;
     ithInner := ithInner q; hasInnerPrefix := hasInnerPrefix q;
     innerPrefixLen := innerPrefixLen q; innerPrefix := innerPrefix q;
     ithLeaf := ithLeaf q; hasLeafPrefix := v; leafPrefix := leafPrefix q |}.

Definition set_leafPrefix (q : querySession) (v : list byte) : querySession :=
  {| keyBitLen := keyBitLen q; key := key q; wordSize := wordSize q;
     from := from q; to := to q; bm := bm q; isInner := isInner q;
     ithInner := ithInner q; hasInnerPrefix := hasInnerPrefix q;
     innerPrefixLen := innerPrefixLen q; innerPrefix := innerPrefix q;
     ithLeaf := ithLeaf q; hasLeafPrefix := hasLeafPrefix q; leafPrefix := v |}.

(** Modelled from the spec: the declarations of the package constants are
    not among the sources; the spec gives [innerSize = 17],
    [bigInnerSize = 257], [bigWordSize = 8] and [wordSize = 4]. *)
Module Const.
Definition wordSize : Z := 4.
Definition bigWordSize : Z := 8.
Definition innerSize : Z := 17.
Definition bigInnerSize : Z := 257.
End Const.

(** Modelled from the spec: [decStep] is not among the sources; it reads the
    little-endian 16-bit bit length of a length-only prefix. *)
Definition decStep (buf : list byte) : result Z :=
  b0 <- index buf 0 ;;
  b1 <- index buf 1 ;;
  Ok (byte_val b0 + 256 * byte_val b1).

(** Modelled from the spec: the [get] method of the leaf store is not among
    the sources; it fetches the [FixedSize] bytes of the [ith] payload. *)
Definition Leaves_get (ls : VLenArray) (ith : Z) : result (list byte) :=
  let idx := i32 (ith * FixedSize ls) in
  slice (Bytes ls) idx (i32 (idx + FixedSize ls)).

(** ** The node decoder *)

Section Query.

Context {L : Low} {V : Type}.

(** The second component being 0 indicates a leaf. *)
Definition getLeafIndex (st : SlimTrie V) (nodeid : Z) : result (Z * Z) :=
  match NodeTypeBM (inner st) with
  | None => Panic NilPointer
  | Some nt =>
      '(r, ith) <- bitmap_Rank64 (Words nt) (RankIndex nt) nodeid ;;
      Ok (i32 (nodeid - r), ith)
  end.

Definition getLeafPrefix (st : SlimTrie V) (nodeid : Z) (qr : querySession)
  : result querySession :=
  '(il, _) <- getLeafIndex st nodeid ;;
  let qr := set_hasLeafPrefix (set_ithLeaf qr il) false in
  match LeafPrefixes (inner st) with
  | None => Ok qr
  | Some lp =>
      let wordI := Z.shiftr il 6 in
      let bitI := Z.land il 63 in
      w <- index (Words (PresenceBM lp)) wordI ;;
      b <- bitmap_Bit bitI ;;
      if Z.land w b =? 0 then Ok qr
      else
        ri <- index (RankIndex (PresenceBM lp)) wordI ;;
        m <- bitmap_Mask bitI ;;
        let ithPref := i32 (ri + OnesCount64 (Z.land w m)) in
        match PositionBM lp with
        | None => Panic NilPointer
        | Some ps =>
            '(f, t) <- bitmap_Select32R64 (Words ps) (SelectIndex ps)
                         (RankIndex ps) ithPref ;;
            pre <- slice (Bytes lp) f t ;;
            Ok (set_leafPrefix (set_hasLeafPrefix qr true) pre)
        end
  end.

(** The bit range and, for a short node, the expanded bitmap of the inner
    node of ordinal [ii]. *)
Definition getInnerRange (st : SlimTrie V) (ii : Z) (qr : querySession)
  : result querySession :=
  let ns := inner st in
  let vs := vars st in
  if ii <? BigInnerCnt ns then
    let f := i32 (ii * Const.bigInnerSize) in
    Ok (set_to (set_from (set_wordSize qr Const.bigWordSize) f)
          (i32 (f + Const.bigInnerSize)))
  else
    let qr := set_wordSize qr Const.wordSize in
    '(ithShort, isShort) <-
       bitmap_Rank64 (Words (ShortBM ns)) (RankIndex (ShortBM ns)) ii ;;
    let f := i32 (i32 (BigInnerOffset vs + i32 (Const.innerSize * ii))
                  + i32 (ShortMinusInner vs * ithShort)) in
    let qr := set_from qr f in
    if isShort =? 0 then Ok (set_to qr (i32 (f + Const.innerSize)))
    else
      let t := i32 (f + ShortSize ns) in
      let qr := set_to qr t in
      let j := Z.land f 63 in
      w <- index (Words (Inners ns)) (Z.shiftr f 6) ;;
      v <- (if j <=? i32 (64 - ShortSize ns)
            then Ok (Z.land (Z.shiftr w j) (ShortMask vs))
            else
              w2 <- index (Words (Inners ns)) (Z.shiftr t 6) ;;
              Ok (Z.lor (Z.shiftr w j)
                    (Z.land (u64 (Z.shiftl w2 (64 - j))) (ShortMask vs)))) ;;
      e <- index (ShortTable ns) v ;;
      Ok (set_bm qr e).

(** The prefix of the inner node of ordinal [ii], when it has one. *)
Definition getInnerPrefix (st : SlimTrie V) (ii : Z) (qr : querySession)
  : result querySession :=
  let ips := InnerPrefixes (inner st) in
  present <- (if EltCnt ips >? 0
              then
                w <- index (Words (PresenceBM ips)) (Z.shiftr ii 6) ;;
                b <- bitmap_Bit (Z.land ii 63) ;;
                Ok (negb (Z.land w b =? 0))
              else Ok false) ;;
  if present : bool then
    let inn := PresenceBM ips in
    '(ithPref, _) <- bitmap_Rank128 (Words inn) (RankIndex inn) ii ;;
    match PositionBM ips with
    | Some ps =>
        '(f, t) <- bitmap_Select32R64 (Words ps) (SelectIndex ps)
                     (RankIndex ps) ithPref ;;
        pre <- slice (Bytes ips) f t ;;
        n <- bitstr_Len pre ;;
        Ok (set_hasInnerPrefix
              (set_innerPrefixLen (set_innerPrefix qr pre) n) true)
    | None =>
        tl <- slice_from (Bytes ips) (i32 (Z.shiftl ithPref 1)) ;;
        n <- decStep tl ;;
        Ok (set_innerPrefixLen qr n)
    end
  else Ok qr.

Definition getNode (st : SlimTrie V) (nodeId : Z) (qr : querySession)
  : result querySession :=
  let qr := set_hasInnerPrefix (set_innerPrefixLen qr 0) false in
  match NodeTypeBM (inner st) with
  | None => Panic NilPointer
  | Some nt =>
      '(ii, isIn) <- bitmap_Rank64 (Words nt) (RankIndex nt) nodeId ;;
      let qr := set_rank qr ii isIn in
      if isIn =? 0 then getLeafPrefix st nodeId qr
      else
        qr <- getInnerRange st ii qr ;;
        getInnerPrefix st ii qr
  end.

(** ** Label extraction and child resolution *)

(** The index of the label of an inner node a key points to. *)
Definition getLabelIdxOfKey (qr : querySession) (keyBitIdx : Z) : result Z :=
  if keyBitIdx <? keyBitLen qr then
    if wordSize qr =? Const.bigWordSize then
      b <- index (key qr) (Z.shiftr keyBitIdx 3) ;;
      Ok (1 + byte_val b)
    else
      b <- index (key qr) (Z.shiftr keyBitIdx 3) ;;
      let b := if Z.land keyBitIdx 7 <? 4 then Z.shiftr (byte_val b) 4
               else byte_val b in
      let b := Z.land b 15 in
      Ok (1 + b)
  else Ok 0.

(** The rank up to the label bit [ithBit] (excluded) and whether that bit is
    set: the part of [getLeftChildID] after the label is known. *)
Definition leftChildOfLabel (st : SlimTrie V) (qr : querySession) (ithBit : Z)
  : result (Z * Z) :=
  let ns := inner st in
  if i32 (to qr - from qr) =? ShortSize ns then
    '(r0, _) <- bitmap_Rank128 (Words (Inners ns)) (RankIndex (Inners ns))
                  (from qr) ;;
    m <- bitmap_Mask ithBit ;;
    Ok (i32 (r0 + OnesCount64 (Z.land (bm qr) m)),
        Z.land (Z.shiftr (bm qr) ithBit) 1)
  else
    bitmap_Rank128 (Words (Inners ns)) (RankIndex (Inners ns))
      (i32 (from qr + ithBit)).

Definition getLeftChildID (st : SlimTrie V) (qr : querySession) (keyBitIdx : Z)
  : result (Z * Z) :=
  ithBit <- getLabelIdxOfKey qr keyBitIdx ;;
  leftChildOfLabel st qr ithBit.

(** ** The leaf store *)

Definition getIthLeaf (st : SlimTrie V) (ith : Z) : result (option V) :=
  match Leaves (inner st) with
  | None => Ok None
  | Some ls =>
      bs <- Leaves_get ls ith ;;
      Ok (snd (Decode (encoder st) bs))
  end.

Definition getLeaf (st : SlimTrie V) (nodeid : Z) : result (option V) :=
  '(leafI, nodeType) <- getLeafIndex st nodeid ;;
  if nodeType =? 1 then Panic Impossible
  else getIthLeaf st leafI.

(** ** Exact lookup *)

(** The state of the descent of [GetID]: [(eqID, i, qr)]. *)
Definition getState : Type := (Z * Z * querySession)%type.

(** One round of the [for] loop of [GetID]. *)
Definition GetID_body (st : SlimTrie V) (k : list byte) (l : Z) (s : getState)
  : result (ctl getState Z) :=
  let '(eqID, i, qr) := s in
  qr <- getNode st eqID qr ;;
  if isInner qr =? 0 then Ok (Brk (eqID, i, qr))
  else
    adv <- (if hasInnerPrefix qr then
              tail <- slice_from k (Z.shiftr i 3) ;;
              r <- bitstr_StrCmpUpto tail (innerPrefix qr) ;;
              if r =? 0
              then Ok (Some (i32 (Z.land i (Z.lnot 7) + innerPrefixLen qr)))
              else Ok None
            else Ok (Some (i32 (i + innerPrefixLen qr)))) ;;
    match adv with
    | None => Ok (Return (-1))
    | Some i =>
        if i >? l then Ok (Return (-1))
        else
          '(lchID, has) <- getLeftChildID st qr i ;;
          if has =? 0 then Ok (Return (-1))
          else
            let eqID := i32 (lchID + 1) in
            if i =? l then Ok (Brk (eqID, i, qr))
            else Ok (Next (eqID, i32 (i + wordSize qr), qr))
    end.

(** The code of [GetID] after its loop. *)
Definition GetID_finish (st : SlimTrie V) (k : list byte) (l : Z) (s : getState)
  : result Z :=
  let '(eqID, i, qr) := s in
  match LeafPrefixes (inner st) with
  | Some _ =>
      if i =? l then
        if hasLeafPrefix qr then Ok (-1) else Ok eqID
      else if negb (hasLeafPrefix qr) then Ok (-1)
      else
        tail <- slice_from k (Z.shiftr i 3) ;;
        if negb (bytes_Equal (leafPrefix qr) tail) then Ok (-1) else Ok eqID
  | None => Ok eqID
  end.

(** The loop of [GetID], from the root. *)
Definition GetID_descent (fuel : nat) (st : SlimTrie V) (k : list byte)
  : result (getState + Z) :=
  let l := i32 (8 * len k) in
  loop (GetID_body st k l) fuel (0, 0, newSession l k).

Definition GetID (fuel : nat) (st : SlimTrie V) (k : list byte) : result Z :=
  match NodeTypeBM (inner st) with
  | None => Ok (-1)
  | Some _ =>
      let l := i32 (8 * len k) in
      r <- GetID_descent fuel st k ;;
      match r with
      | inr v => Ok v
      | inl s => GetID_finish st k l s
      end
  end.

Definition Get (fuel : nat) (st : SlimTrie V) (k : list byte)
  : result (option V * bool) :=
  eqID <- GetID fuel st k ;;
  if eqID =? -1 then Ok (None, false)
  else
    v <- getLeaf st eqID ;;
    Ok (v, true).

(** ** Three-way search *)

Definition cmpLeafPrefix (st : SlimTrie V) (tail : list byte)
  (qr : querySession) : Z :=
  match LeafPrefixes (inner st) with
  | Some _ =>
      let leafPrefix := if hasLeafPrefix qr then leafPrefix qr else [] in
      bytes_Compare tail leafPrefix
  | None => 0
  end.

(** [leftMost] with a [nil] path, the way [searchID] calls it; one scratch
    record serves all rounds. *)
Definition leftMost_body (st : SlimTrie V) (s : Z * querySession)
  : result (ctl (Z * querySession) Empty_set) :=
  let '(idx, qr) := s in
  let ns := inner st in
  qr <- getNode st idx qr ;;
  if isInner qr =? 0 then Ok (Brk (idx, qr))
  else
    '(r0, _) <- bitmap_Rank128 (Words (Inners ns)) (RankIndex (Inners ns))
                  (from qr) ;;
    Ok (Next (i32 (r0 + 1), qr)).

Definition leftMost (fuel : nat) (st : SlimTrie V) (idx : Z) : result Z :=
  r <- loop (leftMost_body st) fuel (idx, newSession 0 []) ;;
  match r with
  | inl (idx, _) => Ok idx
  | inr e => match e with end
  end.

(** [rightMost] takes a fresh scratch record in every round. *)
Definition rightMost_body (st : SlimTrie V) (idx : Z)
  : result (ctl Z Empty_set) :=
  let ns := inner st in
  qr <- getNode st idx (newSession 0 []) ;;
  if isInner qr =? 0 then Ok (Brk idx)
  else
    '(r0, bit) <- bitmap_Rank128 (Words (Inners ns)) (RankIndex (Inners ns))
                    (i32 (to qr - 1)) ;;
    Ok (Next (i32 (r0 + bit))).

Definition rightMost (fuel : nat) (st : SlimTrie V) (idx : Z) : result Z :=
  r <- loop (rightMost_body st) fuel idx ;;
  match r with
  | inl idx => Ok idx
  | inr e => match e with end
  end.

(** The state of the descent of [searchID]: [(lID, eqID, rID, i, qr)]. *)
Definition searchState : Type := (Z * Z * Z * Z * querySession)%type.

(** The first half of a round of [searchID], at an inner node: the inner
    prefix is compared or skipped.  The round goes on with the advanced
    cursor ([inl]) or leaves the loop ([inr]). *)
Definition searchID_prefix (k : list byte) (l : Z) (s : searchState)
  : result (Z + searchState) :=
  let '(lID, eqID, rID, i, qr) := s in
  if hasInnerPrefix qr then
    tail <- slice_from k (Z.shiftr i 3) ;;
    r <- bitstr_StrCmpUpto tail (innerPrefix qr) ;;
    if r =? 0
    then Ok (inl (i32 (Z.land i (Z.lnot 7) + innerPrefixLen qr)))
    else if r <? 0 then Ok (inr (lID, -1, eqID, i, qr))
    else Ok (inr (eqID, -1, rID, i, qr))
  else
    let i := i32 (i + innerPrefixLen qr) in
    if i >? l then Ok (inr (lID, -1, eqID, i, qr))
    else Ok (inl i).

(** The second half of a round: the child of the key's label and its two
    neighbours among the children of this node. *)
Definition searchID_pick (st : SlimTrie V) (l : Z) (s : searchState)
  : result (ctl searchState Empty_set) :=
  let '(lID, eqID, rID, i, qr) := s in
  let ns := inner st in
  '(leftChild, has) <- getLeftChildID st qr i ;;
  let chID := i32 (leftChild + has) in
  let rightChild := i32 (chID + 1) in
  '(leftMostChild, _) <-
     bitmap_Rank128 (Words (Inners ns)) (RankIndex (Inners ns)) (from qr) ;;
  let leftMostChild := i32 (leftMostChild + 1) in
  '(rightMostChild, bit) <-
     bitmap_Rank128 (Words (Inners ns)) (RankIndex (Inners ns))
       (i32 (to qr - 1)) ;;
  let rightMostChild := i32 (rightMostChild + bit) in
  let lID := if (leftChild >=? leftMostChild) && (leftChild <=? rightMostChild)
             then leftChild else lID in
  let rID := if (rightChild >=? leftMostChild)
                && (rightChild <=? rightMostChild)
             then rightChild else rID in
  if has =? 0 then Ok (Brk (lID, -1, rID, i, qr))
  else
    let eqID := chID in
    if i =? l then Ok (Brk (lID, eqID, rID, i, qr))
    else Ok (Next (lID, eqID, rID, i32 (i + wordSize qr), qr)).

(** One round of the [for] loop of [searchID]. *)
Definition searchID_body (st : SlimTrie V) (k : list byte) (l : Z)
  (s : searchState) : result (ctl searchState Empty_set) :=
  let '(lID, eqID, rID, i, qr) := s in
  qr <- getNode st eqID qr ;;
  if isInner qr =? 0 then Ok (Brk (lID, eqID, rID, i, qr))
  else
    adv <- searchID_prefix k l (lID, eqID, rID, i, qr) ;;
    match adv with
    | inr s' => Ok (Brk s')
    | inl i => searchID_pick st l (lID, eqID, rID, i, qr)
    end.

(** The loop of [searchID], from the root. *)
Definition searchID_descent (fuel : nat) (st : SlimTrie V) (k : list byte)
  : result (searchState + Empty_set) :=
  let l := i32 (8 * len k) in
  loop (searchID_body st k l) fuel (-1, 0, -1, 0, newSession l k).

(** The leaf-prefix comparison of [searchID] after its loop. *)
Definition searchID_reconcile (st : SlimTrie V) (k : list byte) (l : Z)
  (s : searchState) : result (Z * Z * Z) :=
  let '(lID, eqID, rID, i, qr) := s in
  if negb (eqID =? -1) then
    if i <=? l then
      tail <- slice_from k (Z.shiftr i 3) ;;
      let r := cmpLeafPrefix st tail qr in
      if r =? -1 then Ok (lID, -1, eqID)
      else if r =? 1 then Ok (eqID, -1, rID)
      else Ok (lID, eqID, rID)
    else Ok (lID, eqID, rID)
  else Ok (lID, eqID, rID).

(** The last step of [searchID]: the neighbours are drilled down to leaves. *)
Definition searchID_drill (fuel : nat) (st : SlimTrie V) (t : Z * Z * Z)
  : result (Z * Z * Z) :=
  let '(lID, eqID, rID) := t in
  lID <- (if negb (lID =? -1) then rightMost fuel st lID else Ok lID) ;;
  rID <- (if negb (rID =? -1) then leftMost fuel st rID else Ok rID) ;;
  Ok (lID, eqID, rID).

Definition searchID (fuel : nat) (st : SlimTrie V) (k : list byte)
  : result (Z * Z * Z) :=
  match NodeTypeBM (inner st) with
  | None => Ok (-1, -1, -1)
  | Some _ =>
      let l := i32 (8 * len k) in
      r <- searchID_descent fuel st k ;;
      match r with
      | inr e => match e with end
      | inl s =>
          t <- searchID_reconcile st k l s ;;
          searchID_drill fuel st t
      end
  end.

Definition RangeGet (fuel : nat) (st : SlimTrie V) (k : list byte)
  : result (option V * bool) :=
  '(lID, eqID, _) <- searchID fuel st k ;;
  if negb (eqID =? -1) then
    v <- getLeaf st eqID ;;
    Ok (v, true)
  else if lID =? -1 then Ok (None, false)
  else
    v <- getLeaf st lID ;;
    Ok (v, true).

Definition Search (fuel : nat) (st : SlimTrie V) (k : list byte)
  : result (option V * option V * option V) :=
  '(lID, eqID, rID) <- searchID fuel st k ;;
  lVal <- (if negb (lID =? -1) then getLeaf st lID else Ok None) ;;
  eqVal <- (if negb (eqID =? -1) then getLeaf st eqID else Ok None) ;;
  rVal <- (if negb (rID =? -1) then getLeaf st rID else Ok None) ;;
  Ok (lVal, eqVal, rVal).

End Query.

(** ** A model of the bit library

    The package of the bit primitives is not among the sources; the model
    follows the contracts the spec gives.  The rank and select indexes are
    taken to agree with the words, so the model reads the words only. *)

(** Modelled from the spec: [rank(W, R, i)] is the count of 1-bits in the
    positions [0, i) and the bit at [i]. *)
Definition rank_model (words : list Z) (i : Z) : result (Z * Z) :=
  w <- index words (Z.shiftr i 6) ;;
  let j := Z.land i 63 in
  let before :=
    fold_right Z.add 0
      (map OnesCount64 (firstn (Z.to_nat (Z.shiftr i 6)) words)) in
  Ok (i32 (before + OnesCount64 (Z.land w (2 ^ j - 1))),
      Z.land (Z.shiftr w j) 1).

Definition word_ones (base w : Z) : list Z :=
  filter (fun p => Z.testbit w (p - base))
    (map (fun n => base + Z.of_nat n) (seq 0 64)).

Fixpoint ones_positions (base : Z) (words : list Z) : list Z :=
  match words with
  | [] => []
  | w :: ws => word_ones base w ++ ones_positions (base + 64) ws
  end.

(** Modelled from the spec: [select(W, Rsel, R, k)] is the pair of the
    k-th and the (k+1)-th set position, which delimit the k-th blob. *)
Definition select_model (words : list Z) (ith : Z) : result (Z * Z) :=
  a <- index (ones_positions 0 words) ith ;;
  b <- index (ones_positions 0 words) (ith + 1) ;;
  Ok (a, b).

(** The bits of a byte string, the high bit of each byte first. *)
Definition byte_bits (b : byte) : list bool :=
  map (fun n => Z.testbit (byte_val b) (7 - Z.of_nat n)) (seq 0 8).

Definition bits_of (bs : list byte) : list bool := flat_map byte_bits bs.

(** Modelled from the spec: a stored prefix is its bits followed by a
    marker byte that gives the bit count of the final byte. *)
Definition Len_model (bs : list byte) : result Z :=
  t <- index bs (len bs - 1) ;;
  match removelast bs with
  | [] => Ok 0
  | content => Ok (8 * (len content - 1) + Z.min (byte_val t) 8)
  end.

Fixpoint cmp_bits (a b : list bool) : Z :=
  match a, b with
  | [], [] => 0
  | [], _ :: _ => -1
  | _ :: _, [] => 1
  | x :: a', y :: b' =>
      if Bool.eqb x y then cmp_bits a' b'
      else if y then -1 else 1
  end.

(** Modelled from the spec: [cmp_upto] compares the key bytes with the
    stored prefix, bit by bit, over the bit length of the prefix; a key
    that ends before the prefix does is below it. *)
Definition StrCmpUpto_model (a b : list byte) : result Z :=
  n <- Len_model b ;;
  Ok (cmp_bits (firstn (Z.to_nat n) (bits_of a))
        (firstn (Z.to_nat n) (bits_of (removelast b)))).

#[export] Instance low_model : Low := {|
  bitmap_Rank64 := fun words _ i => rank_model words i;
  bitmap_Rank128 := fun words _ i => rank_model words i;
  bitmap_Select32R64 := fun words _ _ ith => select_model words ith;
  bitstr_StrCmpUpto := StrCmpUpto_model;
  bitstr_Len := Len_model
|}.

(** ** Concrete instances *)

Definition noBitmap : Bitmap :=
  {| Words := []; RankIndex := []; SelectIndex := [] |}.

Definition noPrefixes : VLenArray :=
  {| N := 0; EltCnt := 0; PresenceBM := noBitmap; PositionBM := None;
     FixedSize := 0; Bytes := [] |}.

(** The codec of the demo tries: a value is its payload bytes. *)
Definition rawBytes : Encoder (list byte) :=
  {| Decode := fun bs => (len bs, Some bs); GetEncodedSize := 1 |}.

(** The keys [""], ["a"] and ["p"], with the values 1, 2 and 3.  Node 0 is
    the root, a normal inner node whose bitmap has the terminator bit and
    the bits of the labels 6 and 7 (the high nibbles of 'a' and 'p'); the
    nodes 1, 2 and 3 are leaves, the last two with the leaf prefixes ["a"]
    and ["p"]. *)
Definition demoSlim : Slim :=
  {| BigInnerCnt := 0;
     ShortSize := 8;
     NodeTypeBM := Some {| Words := [1]; RankIndex := [0]; SelectIndex := [] |};
     Inners := {| Words := [385]; RankIndex := [0]; SelectIndex := [] |};
     ShortBM := {| Words := [0]; RankIndex := [0]; SelectIndex := [] |};
     ShortTable := [];
     InnerPrefixes := noPrefixes;
     LeafPrefixes :=
       Some {| N := 3; EltCnt := 2;
               PresenceBM :=
                 {| Words := [6]; RankIndex := [0]; SelectIndex := [] |};
               PositionBM :=
                 Some {| Words := [7]; RankIndex := [0]; SelectIndex := [0] |};
               FixedSize := 0;
               Bytes := [x61; x70] |};
     Leaves :=
       Some {| N := 3; EltCnt := 3;
               PresenceBM :=
                 {| Words := [7]; RankIndex := [0]; SelectIndex := [] |};
               PositionBM := None;
               FixedSize := 1;
               Bytes := [x01; x02; x03] |} |}.

Definition demoVars : slimVars :=
  {| BigInnerOffset := 0; ShortMinusInner := -9; ShortMask := 255 |}.

Definition demo : SlimTrie (list byte) :=
  {| inner := demoSlim; vars := demoVars; encoder := rawBytes |}.

(** The empty trie: no [NodeTypeBM]. *)
Definition emptySlim : Slim :=
  {| BigInnerCnt := 0; ShortSize := 0; NodeTypeBM := None;
     Inners := noBitmap; ShortBM := noBitmap; ShortTable := [];
     InnerPrefixes := noPrefixes; LeafPrefixes := None; Leaves := None |}.

Definition emptyTrie : SlimTrie (list byte) :=
  {| inner := emptySlim;
     vars := {| BigInnerOffset := 0; ShortMinusInner := 0; ShortMask := 0 |};
     encoder := rawBytes |}.

(** [demo] with other inner prefixes, and with other leaves. *)
Definition withInnerPrefixes (ns : Slim) (ips : VLenArray) : Slim :=
  {| BigInnerCnt := BigInnerCnt ns; ShortSize := ShortSize ns;
     NodeTypeBM := NodeTypeBM ns; Inners := Inners ns; ShortBM := ShortBM ns;
     ShortTable := ShortTable ns; InnerPrefixes := ips;
     LeafPrefixes := LeafPrefixes ns; Leaves := Leaves ns |}.

Definition withLeaves (ns : Slim) (ls : option VLenArray) : Slim :=
  {| BigInnerCnt := BigInnerCnt ns; ShortSize := ShortSize ns;
     NodeTypeBM := NodeTypeBM ns; Inners := Inners ns; ShortBM := ShortBM ns;
     ShortTable := ShortTable ns; InnerPrefixes := InnerPrefixes ns;
     LeafPrefixes := LeafPrefixes ns; Leaves := ls |}.

(** The trie of [demo] built without values: it stores no [Leaves]. *)
Definition demoNoLeaves : SlimTrie (list byte) :=
  {| inner := withLeaves demoSlim None; vars := demoVars;
     encoder := rawBytes |}.

(** The root carries a length-only prefix of 8 bits. *)
Definition demoLenPrefix : SlimTrie (list byte) :=
  {| inner :=
       withInnerPrefixes demoSlim
         {| N := 1; EltCnt := 1;
            PresenceBM := {| Words := [1]; RankIndex := [0]; SelectIndex := [] |};
            PositionBM := None; FixedSize := 0; Bytes := [x08; x00] |};
     vars := demoVars; encoder := rawBytes |}.

(** The root carries the full-bits prefix ["k"], 8 bits. *)
Definition demoBitsPrefix : SlimTrie (list byte) :=
  {| inner :=
       withInnerPrefixes demoSlim
         {| N := 1; EltCnt := 1;
            PresenceBM := {| Words := [1]; RankIndex := [0]; SelectIndex := [] |};
            PositionBM :=
              Some {| Words := [5]; RankIndex := [0]; SelectIndex := [0] |};
            FixedSize := 0; Bytes := [x6b; x08] |};
     vars := demoVars; encoder := rawBytes |}.

(** Eight short inner nodes of 9 bits each; the bitmap code of the eighth,
    5, lies in the bits 63..71 and so straddles the first two words. *)
Definition demoShort : SlimTrie (list byte) :=
  {| inner :=
       {| BigInnerCnt := 0; ShortSize := 9;
          NodeTypeBM :=
            Some {| Words := [255]; RankIndex := [0]; SelectIndex := [] |};
          Inners :=
            {| Words := [2 ^ 63; 2]; RankIndex := [0]; SelectIndex := [] |};
          ShortBM := {| Words := [255]; RankIndex := [0]; SelectIndex := [] |};
          ShortTable := [0; 1; 3; 5; 9; 385];
          InnerPrefixes := noPrefixes; LeafPrefixes := None; Leaves := None |};
     vars := {| BigInnerOffset := 0; ShortMinusInner := -8; ShortMask := 511 |};
     encoder := rawBytes |}.

(** ** Notions the properties are stated with *)

(** The two halves of a byte. *)
Definition high_nibble (b : byte) : Z := byte_val b / 16.
Definition low_nibble (b : byte) : Z := byte_val b mod 16.

(** The child ids of a round of [searchID] as the spec words them: with
    [(lch, has)] the result of child resolution, the matched child is
    [lch + has + 1], and the ids recorded into [lID] and [rID], when they
    lie in the child range of the node, are [lch + 1] and [lch + has + 2]. *)
Definition child_ids_as_stated {L : Low} {V : Type} (st : SlimTrie V) (l : Z)
  (s : searchState) : Prop :=
  let '(lID, eqID, rID, i, qr) := s in
  let ns := inner st in
  forall lch has lm x rm bit lID' eqID' rID' i' qr',
    getLeftChildID st qr i = Ok (lch, has) ->
    bitmap_Rank128 (Words (Inners ns)) (RankIndex (Inners ns)) (from qr)
    = Ok (lm, x) ->
    bitmap_Rank128 (Words (Inners ns)) (RankIndex (Inners ns))
      (i32 (to qr - 1)) = Ok (rm, bit) ->
    searchID_pick st l s = Ok (Next (lID', eqID', rID', i', qr')) ->
    eqID' = lch + has + 1 /\
    (lm + 1 <= lch + 1 <= rm + bit -> lID' = lch + 1) /\
    (lm + 1 <= lch + has + 2 <= rm + bit -> rID' = lch + has + 2).

(** The scratch record of a query for ["a"] on [demo] once the root is
    decoded. *)
Definition demoRoot : querySession :=
  {| keyBitLen := 8; key := [x61]; wordSize := 4; from := 0; to := 17;
     bm := 0; isInner := 1; ithInner := 0; hasInnerPrefix := false;
     innerPrefixLen := 0; innerPrefix := []; ithLeaf := 0;
     hasLeafPrefix := false; leafPrefix := [] |}.

(** The words of a bitmap as one bit stream: bit [i] of the stream is bit
    [i&63] of word [i>>6]. *)
Fixpoint stream (words : list Z) : Z :=
  match words with
  | [] => 0
  | w :: ws => Z.lor w (Z.shiftl (stream ws) 64)
  end.

(** The [n]-bit field of the stream that starts at bit [start]. *)
Definition bit_field (words : list Z) (start n : Z) : Z :=
  Z.land (Z.shiftr (stream words) start) (Z.ones n).

(** Every word is a [uint64]. *)
Definition uint64s (words : list Z) : Prop :=
  Forall (fun w => 0 <= w < 2 ^ 64) words.

(** Modelled from the spec: [init], which fills [st.vars] at load, is not
    among the sources.  The spec gives the derived constants
    [ShortMask = (1<<ShortSize)-1] and, in the formula of [from],
    [ShortMinusInner = ShortSize - innerSize]. *)
Definition vars_init {V : Type} (st : SlimTrie V) : Prop :=
  ShortMinusInner (vars st) = ShortSize (inner st) - Const.innerSize /\
  ShortMask (vars st) = 2 ^ ShortSize (inner st) - 1.

(** Two scratch records that agree on the query, on the decoded inner node
    and on the decoded leaf. *)
Definition same_query (q q' : querySession) : Prop :=
  keyBitLen q' = keyBitLen q /\ key q' = key q.

Definition same_inner (q q' : querySession) : Prop :=
  wordSize q' = wordSize q /\ from q' = from q /\ to q' = to q /\
  bm q' = bm q /\ isInner q' = isInner q /\ ithInner q' = ithInner q.

Definition same_leaf (q q' : querySession) : Prop :=
  ithLeaf q' = ithLeaf q /\ hasLeafPrefix q' = hasLeafPrefix q /\
  leafPrefix q' = leafPrefix q.

(** ** Well-formed tries *)

Section WellFormed.

Context {L : Low} {V : Type}.

(** The node is a leaf: its bit in [NodeTypeBM] is 0. *)
Definition is_leaf (st : SlimTrie V) (id : Z) : Prop :=
  exists nt r,
    NodeTypeBM (inner st) = Some nt /\
    bitmap_Rank64 (Words nt) (RankIndex nt) id = Ok (r, 0).

(** The node is not a big inner node. *)
Definition small_node (st : SlimTrie V) (id : Z) : Prop :=
  forall qr0 qr,
    getNode st id qr0 = Ok qr -> isInner qr <> 0 ->
    wordSize qr = Const.wordSize.

(** What the builder guarantees of the packed representation, as far as the
    lookups rely on it:
    - the bit length of an inner prefix is a multiple of the label size, so
      that labels stay aligned (4-bit labels on nibbles, 8-bit labels on
      bytes);
    - big nodes come first in the node order, so the children of a 4-bit
      node are never big;
    - the child on the terminator branch (label index 0) is a leaf;
    - a leaf prefix that is stored is not empty. *)
Record well_formed (st : SlimTrie V) : Prop := {
  wf_prefix_len :
    forall id qr0 qr,
      getNode st id qr0 = Ok qr -> isInner qr <> 0 ->
      0 <= innerPrefixLen qr /\
      innerPrefixLen qr mod 4 = 0 /\
      (wordSize qr = Const.bigWordSize -> innerPrefixLen qr mod 8 = 0);
  wf_small_children :
    forall id qr0 qr ithBit lch has,
      getNode st id qr0 = Ok qr -> isInner qr <> 0 ->
      wordSize qr = Const.wordSize ->
      leftChildOfLabel st qr ithBit = Ok (lch, has) -> has <> 0 ->
      small_node st (i32 (lch + 1));
  wf_terminator_leaf :
    forall id qr0 qr lch has,
      getNode st id qr0 = Ok qr -> isInner qr <> 0 ->
      leftChildOfLabel st qr 0 = Ok (lch, has) -> has <> 0 ->
      is_leaf st (i32 (lch + 1));
  wf_leaf_prefix :
    forall id qr0 qr,
      getNode st id qr0 = Ok qr -> isInner qr = 0 ->
      hasLeafPrefix qr = true -> leafPrefix qr <> []
}.

(** The contract of the bit library the lookups rely on: the bit a rank
    reports is 0 or 1, and a key tail that compares equal to a stored prefix
    has at least the bits of the prefix. *)
Record low_contract : Prop := {
  rank128_bit :
    forall words idx i r b,
      bitmap_Rank128 words idx i = Ok (r, b) -> b = 0 \/ b = 1;
  cmp_equal_covers :
    forall a p n,
      bitstr_StrCmpUpto a p = Ok 0 -> bitstr_Len p = Ok n -> n <= 8 * len a
}.

(** The invariant of the descent at the head of a round, for a key of [l]
    bits: the cursor is within the key and on a label boundary of the node
    about to be decoded, and no leaf has been decoded yet. *)
Definition descent_inv (st : SlimTrie V) (l : Z) (s : getState) : Prop :=
  let '(eqID, i, qr) := s in
  0 <= i <= l /\
  i mod 4 = 0 /\
  (i mod 8 <> 0 -> small_node st eqID) /\
  hasLeafPrefix qr = false /\
  keyBitLen qr = l.

(** What holds of the state the descent leaves its loop with. *)
Definition descent_end (st : SlimTrie V) (l : Z) (s : getState) : Prop :=
  let '(eqID, i, qr) := s in
  0 <= i <= l /\
  i mod 4 = 0 /\
  (hasLeafPrefix qr = true -> leafPrefix qr <> []) /\
  is_leaf st eqID.

(** A round of [searchID] and a round of [GetID] that agree. *)
Definition rounds_agree (c : ctl searchState Empty_set) (c' : ctl getState Z)
  : Prop :=
  match c, c' with
  | Next (_, eqID, _, i, qr), Next s' => s' = (eqID, i, qr)
  | Brk (_, eqID, _, i, qr), Brk s' => s' = (eqID, i, qr)
  | Brk (_, eqID, _, _, _), Return r => eqID = -1 /\ r = -1
  | _, _ => False
  end.

End WellFormed.

(** The second half of C9 as the spec words it: [Get] reports found exactly
    when [Search] returns a non-nil eq value. *)
Definition found_iff_eq_value {L : Low} {V : Type} (st : SlimTrie V) : Prop :=
  forall fuel k v found lVal eqVal rVal,
    Get fuel st k = Ok (v, found) ->
    Search fuel st k = Ok (lVal, eqVal, rVal) ->
    (found = true <-> eqVal <> None).

(** The trie of [demo] with any leaf store. *)
Definition demoWith (ls : option VLenArray) : SlimTrie (list byte) :=
  {| inner := withLeaves demoSlim ls; vars := demoVars; encoder := rawBytes |}.

(** The scratch record [qr0] once the root of [demo] is decoded into it. *)
Definition demoRootOf (qr0 : querySession) : querySession :=
  set_to (set_from (set_wordSize
    (set_rank (set_hasInnerPrefix (set_innerPrefixLen qr0 0) false) 0 1)
    Const.wordSize) 0) 17.

(** ** The bytes of a leaf payload *)

(** [getIthLeafBytes]: the payload of the [ith] leaf, [size] bytes of the
    pool, where [size] is what the codec reports; [nil] ([None]) when the
    trie stores no leaves. *)
Definition getIthLeafBytes {V : Type} (st : SlimTrie V) (ith : Z)
  : result (option (list byte)) :=
  match Leaves (inner st) with
  | None => Ok None
  | Some ls =>
      let size := GetEncodedSize (encoder st) in
      let idx := i32 (ith * i32 size) in
      bs <- slice (Bytes ls) idx (i32 (idx + i32 size)) ;;
      Ok (Some bs)
  end.

(** The key as a query sees it at a 4-bit node. *)
Definition nibbleSession (k : list byte) : querySession :=
  set_wordSize (newSession (8 * len k) k) Const.wordSize.

(** ** The conversion of older formats

    [Unmarshal] brings tries written by older versions up to the current
    layout.  The functions below are the ones that work on the packed data
    itself; what they call outside the sources is a parameter:
    [bitmap.SafeGet1] and [bitmap.Getw], the assertion [must.Be.True], the
    array of steps [array.U16] with its field [Bitmaps] and its method
    [Get], the flag [array.ArrayFlagIsBitmap], [bitstr.New], and [newBM].
    A Go string is a list of bytes, as the key is. *)
Class Legacy : Type := {
  bitmap_SafeGet1 : list Z -> Z -> Z;
  bitmap_Getw : list Z -> Z -> Z -> result Z;
  must_Be_True : bool -> result unit;
  U16 : Type;
  U16_Bitmaps : U16 -> list Z;
  U16_Get : U16 -> Z -> result (Z * bool);
  ArrayFlagIsBitmap : Z;
  bitstr_New : list byte -> Z -> Z -> result (list byte);
  newBM : list Z -> Z -> list byte -> Bitmap
}.

(** The fields of [array.Array32] that [getBM16Child] reads; [BMElts] is a
    pointer, which the code dereferences without a test. *)
Record Array32 : Type := {
  Bitmaps : list Z;
  Offsets : list Z;
  Elts : list byte;
  Flags : Z;
  BMElts : option Bitmap
}.

(** The leaf store as the conversion sees it: [PresenceBM] may be [nil]. *)
Module Old.
Record Leaves : Type := {
  N : Z;
  EltCnt : Z;
  PresenceBM : option Bitmap;
  FixedSize : Z;
  Bytes : list byte
}.
End Old.

(** [binary.LittleEndian.Uint32]: it checks [b[3]] first. *)
Definition LittleEndian_Uint32 (b : list byte) : result Z :=
  b3 <- index b 3 ;;
  b0 <- index b 0 ;;
  b1 <- index b 1 ;;
  b2 <- index b 2 ;;
  Ok (Z.lor (Z.lor (Z.lor (byte_val b0) (Z.shiftl (byte_val b1) 8))
               (Z.shiftl (byte_val b2) 16))
        (Z.shiftl (byte_val b3) 24)).

(** [bits.TrailingZeros8]: 8 for 0. *)
Definition TrailingZeros8 (x : Z) : Z :=
  match find (fun n => Z.testbit x (Z.of_nat n)) (seq 0 8) with
  | Some n => Z.of_nat n
  | None => 8
  end.

(** What [copy(dst, src)] leaves in [dst]: the first [min(len(dst),
    len(src))] elements come from [src]. *)
Definition go_copy {A : Type} (dst src : list A) : list A :=
  firstn (length dst) src ++ skipn (length src) dst.

Section Conversion.

Context {L : Low} {G : Legacy} {V : Type}.

(** Existence in an old, un-extended bitmap. *)
Definition bmhas (bm : list Z) (i : Z) : bool :=
  bitmap_SafeGet1 bm i =? 1.

(** The step of a node in the format before 0.5.10, in bits: the stored
    step is a [uint16] count of 4-bit words that includes the label word. *)
Definition getStepBefore000510 (steps : U16) (nid : Z) : result Z :=
  if bmhas (U16_Bitmaps steps) nid then
    '(stp, found) <- U16_Get steps nid ;;
    _ <- must_Be_True found ;;
    let stp := (stp - 1) mod 2 ^ 16 in
    Ok (i32 (stp * 4))
  else Ok 0.

(** The 16-bit child bitmap of a node in the format before 0.5.10, moved up
    by one bit to make room for the leaf bit. *)
Definition getBM16Child (ch : Array32) (idx : Z) : result Z :=
  '(eltIdx, bitset) <- bitmap_Rank64 (Bitmaps ch) (Offsets ch) idx ;;
  _ <- must_Be_True (bitset =? 1) ;;
  bm <- (if Z.land (Flags ch) ArrayFlagIsBitmap =? 0 then
           tl <- slice_from (Elts ch) (i32 (eltIdx * 4)) ;;
           v <- LittleEndian_Uint32 tl ;;
           Ok (Z.land v 65535)
         else
           match BMElts ch with
           | None => Panic NilPointer
           | Some elts => bitmap_Getw (Words elts) eltIdx 16
           end) ;;
  Ok (u64 (Z.shiftl bm 1)).

(** [before000512FixLeafSize], on the value of [st.inner.Leaves] and the
    codec of the trie.  A run-time panic of Go that is no index or nil
    panic (a division by zero, a negative length given to [make]) is
    reported as [IndexOutOfRange]. *)
Definition before000512FixLeafSize (enc : Encoder V)
  (leaves : option Old.Leaves) : result (option Old.Leaves) :=
  match leaves with
  | None => Ok None
  | Some ls =>
      match Old.PresenceBM ls with
      | Some _ => Ok leaves
      | None =>
          if negb (Old.FixedSize ls =? 0) then Panic Impossible
          else
            let fixedSize := i32 (GetEncodedSize enc) in
            if fixedSize =? 0 then Panic IndexOutOfRange
            else
              let n := i32 (Z.quot (i32 (len (Old.Bytes ls))) fixedSize) in
              if n <? 0 then Panic IndexOutOfRange
              else
                let indexes := map Z.of_nat (seq 0 (Z.to_nat n)) in
                Ok (Some {| Old.N := n; Old.EltCnt := n;
                            Old.PresenceBM :=
                              Some (newBM indexes n [x72; x36; x34]);
                            Old.FixedSize := fixedSize;
                            Old.Bytes := Old.Bytes ls |})
      end
  end.

(** One round of the loop of [before000512InnerPrefixTobitstr] over the
    state [(i, Bytes)]: the [i]-th prefix, a control byte followed by the
    text, is rewritten in place as the text followed by a trailing byte. *)
Definition prefixToBitstr_body (pbm : Bitmap) (s : Z * list byte)
  : result (ctl (Z * list byte) Empty_set) :=
  let '(i, bytes) := s in
  '(from, to) <- bitmap_Select32R64 (Words pbm) (SelectIndex pbm)
                   (RankIndex pbm) i ;;
  old <- slice bytes from to ;;
  c0 <- index old 0 ;;
  let pl := i32 (len old - 1) in
  bitLen <- (if Z.land (byte_val c0) 1 =? 0 then Ok (i32 (Z.shiftl pl 3))
             else
               last <- index old pl ;;
               let nZero := TrailingZeros8 (byte_val last) in
               Ok (i32 (i32 (i32 (Z.shiftl pl 3) - nZero) - 1))) ;;
  tl <- slice_from old 1 ;;
  newPref <- bitstr_New tl 0 bitLen ;;
  let bytes :=
    firstn (Z.to_nat from) bytes ++ go_copy old newPref
    ++ skipn (Z.to_nat to) bytes in
  if to =? i32 (len bytes) then Ok (Brk (i, bytes))
  else Ok (Next (i32 (i + 1), bytes)).

(** [before000512InnerPrefixTobitstr], on the value of
    [st.inner.InnerPrefixes]. *)
Definition before000512InnerPrefixTobitstr (fuel : nat)
  (ips : option VLenArray) : result (option VLenArray) :=
  match ips with
  | None => Ok None
  | Some a =>
      match PositionBM a with
      | None => Ok ips
      | Some pbm =>
          if len (Bytes a) >? 0 then
            r <- loop (prefixToBitstr_body pbm) fuel (0, Bytes a) ;;
            match r with
            | inl (_, bytes) =>
                Ok (Some {| N := N a; EltCnt := EltCnt a;
                            PresenceBM := PresenceBM a;
                            PositionBM := PositionBM a;
                            FixedSize := FixedSize a; Bytes := bytes |})
            | inr e => match e with end
            end
          else Ok ips
      end
  end.

End Conversion.

(** ** Concrete data for the conversion

    A stand-in for the parameters of [Legacy], to run the conversion on
    concrete data: a bitmap test that gives 0 out of range, a [w]-bit field
    read, an assertion that panics, steps kept as a bitmap with its packed
    values, a bitstr built as the bytes that hold the bits followed by the
    bit count of the last byte, and a bitmap that holds the given
    positions without indexes. *)
Definition SafeGet1_model (bm : list Z) (i : Z) : Z :=
  if (i <? 0) || (64 * len bm <=? i) then 0
  else Z.land (Z.shiftr (nth (Z.to_nat (Z.shiftr i 6)) bm 0) (Z.land i 63)) 1.

Definition Getw_model (words : list Z) (i w : Z) : result Z :=
  v <- index words (Z.shiftr (i * w) 6) ;;
  Ok (Z.land (Z.shiftr v (Z.land (i * w) 63)) (Z.ones w)).

Definition Be_True_model (b : bool) : result unit :=
  if b then Ok tt else Panic Impossible.

Definition U16_Get_model (s : list Z * list Z) (i : Z) : result (Z * bool) :=
  if SafeGet1_model (fst s) i =? 1 then
    '(r, _) <- rank_model (fst s) i ;;
    v <- index (snd s) r ;;
    Ok (v, true)
  else Ok (0, false).

Definition byte_of (z : Z) : byte :=
  match Byte.of_N (Z.to_N z) with
  | Some b => b
  | None => x00
  end.

Definition New_model (s : list byte) (frm upto : Z) : result (list byte) :=
  let n := (upto + 7) / 8 in
  content <- slice s 0 n ;;
  Ok (content ++ [byte_of (if n =? 0 then 0 else upto - 8 * (n - 1))]).

Definition newBM_model (indexes : list Z) (n : Z) (opts : list byte)
  : Bitmap :=
  {| Words :=
       map (fun j =>
              fold_right Z.lor 0
                (map (fun i => Z.shiftl 1 (i - 64 * Z.of_nat j))
                   (filter (fun i => Z.shiftr i 6 =? Z.of_nat j) indexes)))
         (seq 0 (Z.to_nat ((n + 63) / 64)));
     RankIndex := [];
     SelectIndex := [] |}.

#[export] Instance legacy_model : Legacy := {|
  bitmap_SafeGet1 := SafeGet1_model;
  bitmap_Getw := Getw_model;
  must_Be_True := Be_True_model;
  U16 := list Z * list Z;
  U16_Bitmaps := fst;
  U16_Get := U16_Get_model;
  ArrayFlagIsBitmap := 1;
  bitstr_New := New_model;
  newBM := newBM_model
|}.

(** Steps of the nodes 0 and 2, three words and one word. *)
Definition demoSteps : list Z * list Z := ([5], [3; 1]).

(** Children in the layout that keeps them in [Elts]: node 0 has the
    children of the labels 1 and 2, with the rank 0 in the upper half. *)
Definition demoChildren : Array32 :=
  {| Bitmaps := [1]; Offsets := [0]; Elts := [x06; x00; x00; x00];
     Flags := 0; BMElts := None |}.

(** Leaves as written before [PresenceBM] was: the bytes only. *)
Definition demoOldLeaves : Old.Leaves :=
  {| Old.N := 0; Old.EltCnt := 0; Old.PresenceBM := None;
     Old.FixedSize := 0; Old.Bytes := [x01; x02; x03] |}.

(** One inner prefix in the older format: the control byte 0, then the
    text ["ab"]. *)
Definition demoOldPrefixes : VLenArray :=
  {| N := 1; EltCnt := 1;
     PresenceBM := {| Words := [1]; RankIndex := [0]; SelectIndex := [] |};
     PositionBM :=
       Some {| Words := [9]; RankIndex := [0]; SelectIndex := [0] |};
     FixedSize := 0;
     Bytes := [x00; x61; x62] |}.

(** * Properties *)

(** ** Outcomes *)

Lemma bind_Ok {A B : Type} (m : result A) (k : A -> result B) (b : B) :
  bind m k = Ok b -> exists a, m = Ok a /\ k a = Ok b.
Proof.
  destruct m as [a | p | ]; simpl; intros H; try discriminate.
  exists a; split; [reflexivity | exact H].
Qed.

Lemma loop_S {S R : Type} (body : S -> result (ctl S R)) (n : nat) (s : S) :
  loop body (Datatypes.S n) s =
  (c <- body s ;;
   match c with
   | Next s' => loop body n s'
   | Brk s' => Ok (inl s')
   | Return r => Ok (inr r)
   end).
Proof. reflexivity. Qed.

Section Properties.

Context {L : Low} {V : Type}.

Implicit Types (st : SlimTrie V) (k : list byte) (qr : querySession).

(** ** The empty trie *)

(** C7.  On an instance without [NodeTypeBM], whatever the key: [GetID]
    returns -1, [Get] returns (nil, false), [searchID] returns (-1, -1, -1),
    [Search] returns (nil, nil, nil) and [RangeGet] returns (nil, false). *)
Theorem empty_trie_not_found (fuel : nat) st k :
  NodeTypeBM (inner st) = None ->
  GetID fuel st k = Ok (-1) /\
  Get fuel st k = Ok (None, false) /\
  searchID fuel st k = Ok (-1, -1, -1) /\
  Search fuel st k = Ok (None, None, None) /\
  RangeGet fuel st k = Ok (None, false).
Proof.
  intros Hnil.
  assert (HG : GetID fuel st k = Ok (-1)) by (unfold GetID; now rewrite Hnil).
  assert (HS : searchID fuel st k = Ok (-1, -1, -1))
    by (unfold searchID; now rewrite Hnil).
  repeat split; trivial.
  - unfold Get. now rewrite HG.
  - unfold Search. now rewrite HS.
  - unfold RangeGet. now rewrite HS.
Qed.

(** ** Range containment *)

(** C1.  On a non-empty instance, with [(lID, eqID, rID)] the result of the
    three-way search: [RangeGet] returns the value at [eqID] with [true]
    when [eqID <> -1]; else the value at [lID] with [true] when
    [lID <> -1]; else (nil, false). *)
Theorem RangeGet_by_searchID (fuel : nat) st k (lID eqID rID : Z) :
  NodeTypeBM (inner st) <> None ->
  searchID fuel st k = Ok (lID, eqID, rID) ->
  (eqID <> -1 ->
   RangeGet fuel st k = (v <- getLeaf st eqID ;; Ok (v, true))) /\
  (eqID = -1 -> lID <> -1 ->
   RangeGet fuel st k = (v <- getLeaf st lID ;; Ok (v, true))) /\
  (eqID = -1 -> lID = -1 -> RangeGet fuel st k = Ok (None, false)).
Proof.
  intros _ HS. unfold RangeGet. rewrite HS. simpl.
  repeat split.
  - intros Hne. apply Z.eqb_neq in Hne. now rewrite Hne.
  - intros -> Hl. apply Z.eqb_neq in Hl. simpl. now rewrite Hl.
  - now intros -> ->.
Qed.

(** ** Label extraction *)

Lemma byte_val_range (b : byte) : 0 <= byte_val b < 256.
Proof.
  unfold byte_val. pose proof (Byte.to_N_bounded b) as H. lia.
Qed.

Lemma index_in_range {A : Type} (l : list A) (i : Z) :
  0 <= i < len l -> exists a, index l i = Ok a.
Proof.
  intros [H0 H1]. unfold index, len in *.
  destruct (Z.ltb_spec i 0); [lia |].
  destruct (nth_error l (Z.to_nat i)) eqn:E; [eauto |].
  apply nth_error_None in E. lia.
Qed.

Lemma high_nibble_code (b : byte) :
  Z.land (Z.shiftr (byte_val b) 4) 15 = high_nibble b.
Proof.
  unfold high_nibble. pose proof (byte_val_range b) as Hb.
  rewrite Z.shiftr_div_pow2 by lia. change (2 ^ 4) with 16.
  change 15 with (Z.ones 4). rewrite Z.land_ones by lia.
  change (2 ^ 4) with 16. apply Z.mod_small.
  split; [apply Z.div_pos; lia | apply Z.div_lt_upper_bound; lia].
Qed.

Lemma low_nibble_code (b : byte) : Z.land (byte_val b) 15 = low_nibble b.
Proof.
  unfold low_nibble. change 15 with (Z.ones 4).
  rewrite Z.land_ones by lia. reflexivity.
Qed.

(** C6.  With [i] the bit cursor into a key of [keyBitLen] bits: the label
    index is 0 when [i] equals the key bit length; at a big node it is
    [1 + key[i>>3]]; at a 4-bit node it is 1 plus the high nibble of
    [key[i>>3]] when [i&7 < 4] and 1 plus the low nibble otherwise, so that
    the cursors [8m] and [8m+4] read the high and then the low nibble of
    byte [m]. *)
Theorem label_of_cursor qr (i : Z) :
  keyBitLen qr = 8 * len (key qr) ->
  0 <= i ->
  (i = keyBitLen qr -> getLabelIdxOfKey qr i = Ok 0) /\
  (i < keyBitLen qr ->
   exists b, index (key qr) (Z.shiftr i 3) = Ok b /\
     (wordSize qr = Const.bigWordSize ->
      getLabelIdxOfKey qr i = Ok (1 + byte_val b)) /\
     (wordSize qr = Const.wordSize ->
      getLabelIdxOfKey qr i =
      Ok (1 + (if Z.land i 7 <? 4 then high_nibble b else low_nibble b)))) /\
  (forall m b, 0 <= m -> index (key qr) m = Ok b ->
     wordSize qr = Const.wordSize ->
     getLabelIdxOfKey qr (8 * m) = Ok (1 + high_nibble b) /\
     getLabelIdxOfKey qr (8 * m + 4) = Ok (1 + low_nibble b)).
Proof.
  intros Hl Hi.
  assert (Hgen : forall j, 0 <= j -> j < keyBitLen qr ->
            exists b, index (key qr) (Z.shiftr j 3) = Ok b /\
              (wordSize qr = Const.bigWordSize ->
               getLabelIdxOfKey qr j = Ok (1 + byte_val b)) /\
              (wordSize qr = Const.wordSize ->
               getLabelIdxOfKey qr j =
               Ok (1 + (if Z.land j 7 <? 4 then high_nibble b
                        else low_nibble b)))).
  { intros j Hj Hlt.
    destruct (index_in_range (key qr) (Z.shiftr j 3)) as [b Hb].
    { rewrite Z.shiftr_div_pow2 by lia. change (2 ^ 3) with 8.
      split; [apply Z.div_pos; lia | apply Z.div_lt_upper_bound; lia]. }
    exists b. split; [exact Hb |].
    unfold getLabelIdxOfKey.
    apply Z.ltb_lt in Hlt. rewrite Hlt, Hb. simpl.
    split; intros Hw; rewrite Hw; simpl; [reflexivity |].
    destruct (Z.land j 7 <? 4).
    - now rewrite high_nibble_code.
    - now rewrite low_nibble_code. }
  split; [| split].
  - intros ->. unfold getLabelIdxOfKey. now rewrite Z.ltb_irrefl.
  - intros Hlt. apply Hgen; assumption.
  - intros m b Hm Hb Hw.
    assert (Hlen : m < len (key qr)).
    { unfold index in Hb. destruct (m <? 0); [discriminate |].
      destruct (nth_error (key qr) (Z.to_nat m)) eqn:E; [| discriminate].
      assert (Hn : nth_error (key qr) (Z.to_nat m) <> None) by congruence.
      apply nth_error_Some in Hn. unfold len. lia. }
    assert (H0 : Z.shiftr (8 * m) 3 = m).
    { rewrite Z.shiftr_div_pow2 by lia. change (2 ^ 3) with 8.
      rewrite Z.mul_comm. apply Z.div_mul. lia. }
    assert (H4 : Z.shiftr (8 * m + 4) 3 = m).
    { rewrite Z.shiftr_div_pow2 by lia. change (2 ^ 3) with 8.
      replace (8 * m + 4) with (4 + m * 8) by lia.
      rewrite Z.div_add by lia. reflexivity. }
    assert (L0 : Z.land (8 * m) 7 = 0).
    { change 7 with (Z.ones 3). rewrite Z.land_ones by lia.
      change (2 ^ 3) with 8. rewrite Z.mul_comm. apply Z.mod_mul. lia. }
    assert (L4 : Z.land (8 * m + 4) 7 = 4).
    { change 7 with (Z.ones 3). rewrite Z.land_ones by lia.
      change (2 ^ 3) with 8. replace (8 * m + 4) with (4 + m * 8) by lia.
      rewrite Z.mod_add by lia. reflexivity. }
    split.
    + destruct (Hgen (8 * m)) as (b' & Hb' & _ & Hn); [lia | lia |].
      rewrite H0, Hb in Hb'. injection Hb' as <-.
      rewrite (Hn Hw), L0. reflexivity.
    + destruct (Hgen (8 * m + 4)) as (b' & Hb' & _ & Hn); [lia | lia |].
      rewrite H4, Hb in Hb'. injection Hb' as <-.
      rewrite (Hn Hw), L4. reflexivity.
Qed.

(** ** The three-way descent *)

(** C4.  In a round of [searchID] at an inner node: when the comparison of
    the key tail with the stored full-bits prefix gives a result below 0,
    the round sets [rID] to the current node id, [eqID] to -1 and leaves the
    loop; when the result is above 0 it sets [lID] to the current node id,
    [eqID] to -1 and leaves the loop; and when a length-only prefix moves
    the cursor beyond the key bit length [l], it sets [rID] to the current
    node id, [eqID] to -1 and leaves the loop. *)
Theorem searchID_prefix_mismatch st k (l lID eqID rID i : Z) qr0 qr :
  getNode st eqID qr0 = Ok qr ->
  isInner qr <> 0 ->
  (forall tail r,
     hasInnerPrefix qr = true ->
     slice_from k (Z.shiftr i 3) = Ok tail ->
     bitstr_StrCmpUpto tail (innerPrefix qr) = Ok r ->
     (r < 0 ->
      searchID_body st k l (lID, eqID, rID, i, qr0)
      = Ok (Brk (lID, -1, eqID, i, qr))) /\
     (r > 0 ->
      searchID_body st k l (lID, eqID, rID, i, qr0)
      = Ok (Brk (eqID, -1, rID, i, qr)))) /\
  (hasInnerPrefix qr = false ->
   i32 (i + innerPrefixLen qr) > l ->
   searchID_body st k l (lID, eqID, rID, i, qr0)
   = Ok (Brk (lID, -1, eqID, i32 (i + innerPrefixLen qr), qr))).
Proof.
  intros Hnode Hinner.
  apply Z.eqb_neq in Hinner.
  split.
  - intros tail r Hp Htail Hcmp.
    split; intros Hr; unfold searchID_body, searchID_prefix;
      rewrite Hnode; simpl; rewrite Hinner, Hp, Htail; simpl;
      rewrite Hcmp; simpl.
    + assert (E0 : (r =? 0) = false) by (apply Z.eqb_neq; lia).
      assert (E1 : (r <? 0) = true) by (apply Z.ltb_lt; lia).
      now rewrite E0, E1.
    + assert (E0 : (r =? 0) = false) by (apply Z.eqb_neq; lia).
      assert (E1 : (r <? 0) = false) by (apply Z.ltb_ge; lia).
      now rewrite E0, E1.
  - intros Hp Hgt. unfold searchID_body, searchID_prefix.
    rewrite Hnode. simpl. rewrite Hinner, Hp.
    assert (E : (i32 (i + innerPrefixLen qr) >? l) = true)
      by (apply Z.gtb_lt; lia).
    simpl. now rewrite E.
Qed.

(** C2, amended.  In a round of [searchID], with [(lch, has)] the result of
    child resolution at the key's label and the child range
    [leftMostChild .. rightMostChild] of the node: the matched child is
    [lch + has]; the id recorded into [lID], when it lies in the child
    range, is [lch]; the id recorded into [rID], when it lies in the child
    range, is [lch + has + 1]; all in [int32] arithmetic. *)
Theorem searchID_child_ids st (l lID eqID rID i : Z) qr
  (lch has lm x rm bit : Z) :
  let ns := inner st in
  let chID := i32 (lch + has) in
  let rightChild := i32 (chID + 1) in
  let leftMostChild := i32 (lm + 1) in
  let rightMostChild := i32 (rm + bit) in
  getLeftChildID st qr i = Ok (lch, has) ->
  bitmap_Rank128 (Words (Inners ns)) (RankIndex (Inners ns)) (from qr)
  = Ok (lm, x) ->
  bitmap_Rank128 (Words (Inners ns)) (RankIndex (Inners ns)) (i32 (to qr - 1))
  = Ok (rm, bit) ->
  exists lID' eqID' rID' i',
    (searchID_pick st l (lID, eqID, rID, i, qr)
     = Ok (Next (lID', eqID', rID', i', qr)) \/
     searchID_pick st l (lID, eqID, rID, i, qr)
     = Ok (Brk (lID', eqID', rID', i', qr))) /\
    (has <> 0 -> eqID' = chID) /\
    (has = 0 -> eqID' = -1) /\
    (leftMostChild <= lch <= rightMostChild -> lID' = lch) /\
    (~ (leftMostChild <= lch <= rightMostChild) -> lID' = lID) /\
    (leftMostChild <= rightChild <= rightMostChild -> rID' = rightChild) /\
    (~ (leftMostChild <= rightChild <= rightMostChild) -> rID' = rID).
Proof.
  intros ns chID rightChild leftMostChild rightMostChild Hch Hlm Hrm.
  unfold searchID_pick. fold ns. rewrite Hch. simpl.
  rewrite Hlm. simpl. rewrite Hrm. simpl.
  fold chID. fold rightChild. fold leftMostChild. fold rightMostChild.
  set (lID' := if (lch >=? leftMostChild) && (lch <=? rightMostChild)
               then lch else lID).
  set (rID' := if (rightChild >=? leftMostChild)
                  && (rightChild <=? rightMostChild)
               then rightChild else rID).
  assert (Hl1 : leftMostChild <= lch <= rightMostChild -> lID' = lch).
  { intros [H1 H2]. unfold lID'.
    apply Z.geb_le in H1. apply Z.leb_le in H2. now rewrite H1, H2. }
  assert (Hl2 : ~ (leftMostChild <= lch <= rightMostChild) -> lID' = lID).
  { intros Hn. unfold lID'.
    destruct (Z.geb_spec lch leftMostChild);
      destruct (Z.leb_spec lch rightMostChild); simpl; trivial; lia. }
  assert (Hr1 : leftMostChild <= rightChild <= rightMostChild ->
                rID' = rightChild).
  { intros [H1 H2]. unfold rID'.
    apply Z.geb_le in H1. apply Z.leb_le in H2. now rewrite H1, H2. }
  assert (Hr2 : ~ (leftMostChild <= rightChild <= rightMostChild) ->
                rID' = rID).
  { intros Hn. unfold rID'.
    destruct (Z.geb_spec rightChild leftMostChild);
      destruct (Z.leb_spec rightChild rightMostChild); simpl; trivial; lia. }
  destruct (Z.eqb_spec has 0) as [Hz | Hnz].
  - exists lID', (-1), rID', i. repeat split; auto; lia.
  - destruct (Z.eqb_spec i l).
    + exists lID', chID, rID', i. repeat split; auto; lia.
    + exists lID', chID, rID', (i32 (i + wordSize qr)).
      repeat split; auto; lia.
Qed.

End Properties.

(** ** The properties at concrete tries *)

Lemma empty_trie_not_found_witness :
  NodeTypeBM (inner emptyTrie) = None /\
  GetID 0 emptyTrie [x61] = Ok (-1) /\
  Get 0 emptyTrie [x61] = Ok (None, false) /\
  searchID 0 emptyTrie [x61] = Ok (-1, -1, -1) /\
  Search 0 emptyTrie [x61] = Ok (None, None, None) /\
  RangeGet 0 emptyTrie [x61] = Ok (None, false).
Proof.
  split; [reflexivity |].
  apply (empty_trie_not_found 0 emptyTrie [x61]). reflexivity.
Defined.

Lemma RangeGet_by_searchID_witness :
  searchID 5 demo [x62] = Ok (2, -1, 3) /\
  RangeGet 5 demo [x62] = Ok (Some [x02], true) /\
  searchID 5 demo [x61] = Ok (1, 2, 3) /\
  RangeGet 5 demo [x61] = Ok (Some [x02], true) /\
  searchID 5 demo [x00] = Ok (1, -1, 2) /\
  RangeGet 5 demo [x00] = Ok (Some [x01], true).
Proof.
  assert (Hne : NodeTypeBM (inner demo) <> None) by discriminate.
  assert (Hb : searchID 5 demo [x62] = Ok (2, -1, 3))
    by (vm_compute; reflexivity).
  assert (Ha : searchID 5 demo [x61] = Ok (1, 2, 3))
    by (vm_compute; reflexivity).
  assert (H0 : searchID 5 demo [x00] = Ok (1, -1, 2))
    by (vm_compute; reflexivity).
  destruct (RangeGet_by_searchID 5 demo [x62] 2 (-1) 3 Hne Hb) as (_ & Rb & _).
  destruct (RangeGet_by_searchID 5 demo [x61] 1 2 3 Hne Ha) as (Ra & _ & _).
  destruct (RangeGet_by_searchID 5 demo [x00] 1 (-1) 2 Hne H0) as (_ & R0 & _).
  split; [exact Hb |].
  split; [rewrite Rb by lia; vm_compute; reflexivity |].
  split; [exact Ha |].
  split; [rewrite Ra by lia; vm_compute; reflexivity |].
  split; [exact H0 |].
  rewrite R0 by lia. vm_compute. reflexivity.
Defined.

Lemma label_of_cursor_witness :
  getLabelIdxOfKey demoRoot 8 = Ok 0 /\
  getLabelIdxOfKey demoRoot 0 = Ok 7 /\
  getLabelIdxOfKey demoRoot 4 = Ok 2 /\
  getLabelIdxOfKey (set_wordSize demoRoot 8) 0 = Ok 98.
Proof.
  destruct (label_of_cursor demoRoot 8) as (H8 & _ & _);
    [reflexivity | lia |].
  destruct (label_of_cursor demoRoot 0) as (_ & _ & Hn);
    [reflexivity | lia |].
  destruct (Hn 0 x61) as (Hhi & Hlo); [lia | reflexivity | reflexivity |].
  destruct (label_of_cursor (set_wordSize demoRoot 8) 0) as (_ & Hb & _);
    [reflexivity | lia |].
  destruct Hb as (b & Eb & Hbig & _); [reflexivity |].
  injection Eb as <-.
  split; [apply H8; reflexivity |].
  split; [exact Hhi |].
  split; [exact Hlo |].
  apply Hbig. reflexivity.
Defined.

Lemma searchID_prefix_mismatch_witness :
  (exists qr,
     getNode demoBitsPrefix 0 (newSession 8 [x6a]) = Ok qr /\
     searchID_body demoBitsPrefix [x6a] 8 (-1, 0, -1, 0, newSession 8 [x6a])
     = Ok (Brk (-1, -1, 0, 0, qr))) /\
  (exists qr,
     getNode demoBitsPrefix 0 (newSession 8 [x6c]) = Ok qr /\
     searchID_body demoBitsPrefix [x6c] 8 (-1, 0, -1, 0, newSession 8 [x6c])
     = Ok (Brk (0, -1, -1, 0, qr))) /\
  (exists qr,
     getNode demoLenPrefix 0 (newSession 0 []) = Ok qr /\
     searchID_body demoLenPrefix [] 0 (-1, 0, -1, 0, newSession 0 [])
     = Ok (Brk (-1, -1, 0, 8, qr))).
Proof.
  split; [| split].
  - eexists. split; [vm_compute; reflexivity |].
    refine (proj1 (proj1 (searchID_prefix_mismatch demoBitsPrefix [x6a] 8
                            (-1) 0 (-1) 0 _ _ _ _) [x6a] (-1) _ _ _) _).
    + vm_compute. reflexivity.
    + vm_compute. discriminate.
    + reflexivity.
    + reflexivity.
    + vm_compute. reflexivity.
    + lia.
  - eexists. split; [vm_compute; reflexivity |].
    refine (proj2 (proj1 (searchID_prefix_mismatch demoBitsPrefix [x6c] 8
                            (-1) 0 (-1) 0 _ _ _ _) [x6c] 1 _ _ _) _).
    + vm_compute. reflexivity.
    + vm_compute. discriminate.
    + reflexivity.
    + reflexivity.
    + vm_compute. reflexivity.
    + lia.
  - eexists. split; [vm_compute; reflexivity |].
    match goal with
    | |- _ = Ok (Brk (_, _, _, _, ?q)) =>
        assert (Hn : getNode demoLenPrefix 0 (newSession 0 []) = Ok q)
          by (vm_compute; reflexivity);
        assert (Hi : isInner q <> 0) by (vm_compute; discriminate);
        pose proof (proj2 (searchID_prefix_mismatch demoLenPrefix [] 0
                             (-1) 0 (-1) 0 (newSession 0 []) q Hn Hi))
          as Hlen
    end.
    apply Hlen; [reflexivity | vm_compute; reflexivity].
Defined.

(** C2 as the spec words it fails at the root of [demo] for the key ["a"]:
    child resolution gives (1, 1) and the round goes on to node 2, recording
    the neighbours 1 and 3, not to node 3 with the neighbours 2 and 4. *)
Lemma child_ids_as_stated_fails :
  ~ child_ids_as_stated demo 8 (-1, 0, -1, 0, demoRoot).
Proof.
  intros H.
  destruct (H 1 1 0 1 3 0 1 2 3 4 demoRoot) as (Heq & _).
  - vm_compute. reflexivity.
  - vm_compute. reflexivity.
  - vm_compute. reflexivity.
  - vm_compute. reflexivity.
  - discriminate Heq.
Qed.

Lemma searchID_child_ids_witness :
  getLeftChildID demo demoRoot 0 = Ok (1, 1) /\
  searchID_pick demo 8 (-1, 0, -1, 0, demoRoot)
  = Ok (Next (1, 2, 3, 4, demoRoot)) /\
  exists lID' eqID' rID' i',
    (searchID_pick demo 8 (-1, 0, -1, 0, demoRoot)
     = Ok (Next (lID', eqID', rID', i', demoRoot)) \/
     searchID_pick demo 8 (-1, 0, -1, 0, demoRoot)
     = Ok (Brk (lID', eqID', rID', i', demoRoot))) /\
    eqID' = 2 /\ lID' = 1 /\ rID' = 3.
Proof.
  split; [vm_compute; reflexivity |].
  split; [vm_compute; reflexivity |].
  destruct (searchID_child_ids demo 8 (-1) 0 (-1) 0 demoRoot 1 1 0 1 3 0)
    as (lID' & eqID' & rID' & i' & Hres & He & _ & Hl & _ & Hr & _).
  - vm_compute. reflexivity.
  - vm_compute. reflexivity.
  - vm_compute. reflexivity.
  - exists lID', eqID', rID', i'.
    split; [exact Hres |].
    split; [apply He; lia |].
    split; [apply Hl; vm_compute; split; discriminate |].
    apply Hr. vm_compute. split; discriminate.
Defined.

(** ** Machine arithmetic *)

Lemma i32_range (z : Z) : - 2 ^ 31 <= i32 z < 2 ^ 31.
Proof.
  unfold i32. pose proof (Z.mod_pos_bound (z + 2 ^ 31) (2 ^ 32)). lia.
Qed.

Lemma i32_small (z : Z) : - 2 ^ 31 <= z < 2 ^ 31 -> i32 z = z.
Proof.
  intros H. unfold i32. rewrite Z.mod_small; lia.
Qed.

Lemma i32_add_l (a b : Z) : i32 (i32 a + b) = i32 (a + b).
Proof.
  unfold i32.
  replace ((a + 2 ^ 31) mod 2 ^ 32 - 2 ^ 31 + b + 2 ^ 31)
    with ((a + 2 ^ 31) mod 2 ^ 32 + b) by lia.
  rewrite Z.add_mod_idemp_l by lia.
  replace (a + 2 ^ 31 + b) with (a + b + 2 ^ 31) by lia. reflexivity.
Qed.

Lemma i32_add_r (a b : Z) : i32 (a + i32 b) = i32 (a + b).
Proof. rewrite Z.add_comm, i32_add_l, Z.add_comm. reflexivity. Qed.

(** ** Bit streams *)

Lemma index_Ok {A : Type} (l : list A) (i : Z) (a d : A) :
  index l i = Ok a -> 0 <= i < len l /\ nth (Z.to_nat i) l d = a.
Proof.
  unfold index, len. destruct (Z.ltb_spec i 0); [discriminate |].
  destruct (nth_error l (Z.to_nat i)) eqn:E; [| discriminate].
  intros [= <-]. split.
  - assert (Hn : nth_error l (Z.to_nat i) <> None) by congruence.
    apply nth_error_Some in Hn. lia.
  - apply nth_error_nth. exact E.
Qed.

Lemma uint64_high_bits (w k : Z) :
  0 <= w < 2 ^ 64 -> 64 <= k -> Z.testbit w k = false.
Proof.
  intros Hw Hk. rewrite <- (Z.mod_small w (2 ^ 64)) by lia.
  apply Z.mod_pow2_bits_high. lia.
Qed.

Lemma uint64s_nth (words : list Z) (n : nat) :
  uint64s words -> 0 <= nth n words 0 < 2 ^ 64.
Proof.
  intros H. revert n. induction H as [| w ws Hw _ IH]; intros [| n]; simpl;
    try lia; auto.
Qed.

Lemma stream_testbit (words : list Z) (p : Z) :
  uint64s words -> 0 <= p ->
  Z.testbit (stream words) p
  = Z.testbit (nth (Z.to_nat (p / 64)) words 0) (p mod 64).
Proof.
  intros H. revert p. induction H as [| w ws Hw _ IH]; intros p Hp.
  - simpl. destruct (Z.to_nat (p / 64)); now rewrite !Z.bits_0.
  - change (stream (w :: ws)) with (Z.lor w (Z.shiftl (stream ws) 64)).
    rewrite Z.lor_spec, Z.shiftl_spec by lia.
    destruct (Z.ltb_spec p 64) as [Hlt | Hge].
    + rewrite (Z.testbit_neg_r _ (p - 64)) by lia.
      rewrite orb_false_r, Z.div_small, Z.mod_small by lia. reflexivity.
    + rewrite (uint64_high_bits w p Hw Hge). simpl orb.
      rewrite IH by lia.
      replace p with ((p - 64) + 1 * 64) at 3 4 by lia.
      rewrite Z.div_add, Z.mod_add by lia.
      replace (Z.to_nat ((p - 64) / 64 + 1))
        with (Datatypes.S (Z.to_nat ((p - 64) / 64))).
      * reflexivity.
      * assert (0 <= (p - 64) / 64) by (apply Z.div_pos; lia). lia.
Qed.

Lemma land_63 (f : Z) : Z.land f 63 = f mod 64.
Proof. change 63 with (Z.ones 6). now rewrite Z.land_ones by lia. Qed.

Lemma shiftr_6 (f : Z) : Z.shiftr f 6 = f / 64.
Proof. now rewrite Z.shiftr_div_pow2 by lia. Qed.

Lemma mask_ones (n : Z) : 2 ^ n - 1 = Z.ones n.
Proof. rewrite Z.ones_equiv. lia. Qed.

Lemma stream_bit_at (words : list Z) (f k q r w : Z) :
  uint64s words -> 0 <= q -> 0 <= r < 64 ->
  k + f = r + q * 64 ->
  index words q = Ok w ->
  Z.testbit (stream words) (k + f) = Z.testbit w r.
Proof.
  intros Hw Hq Hr Heq Hidx.
  rewrite stream_testbit by (trivial; lia).
  rewrite Heq, Z.div_add, Z.mod_add by lia.
  rewrite Z.div_small, Z.mod_small by lia. simpl.
  destruct (index_Ok words q w 0 Hidx) as [_ ->]. reflexivity.
Qed.

(** The field lies within one word. *)
Lemma field_in_word (words : list Z) (f n w : Z) :
  uint64s words -> 0 <= f -> 0 <= n ->
  index words (Z.shiftr f 6) = Ok w ->
  Z.land f 63 <= 64 - n ->
  Z.land (Z.shiftr w (Z.land f 63)) (2 ^ n - 1) = bit_field words f n.
Proof.
  intros Hw Hf Hn Hidx Hj.
  rewrite land_63 in *. rewrite shiftr_6 in Hidx. rewrite mask_ones.
  pose proof (Z.mod_pos_bound f 64 ltac:(lia)) as Hjr.
  pose proof (Z.div_mod f 64 ltac:(lia)) as Hdm.
  assert (Hq : 0 <= f / 64) by (apply Z.div_pos; lia).
  unfold bit_field. apply Z.bits_inj'. intros k Hk.
  rewrite !Z.land_spec, !Z.shiftr_spec, !Z.testbit_ones_nonneg by lia.
  destruct (Z.ltb_spec k n) as [Hkn | Hkn]; [| now rewrite !andb_false_r].
  rewrite !andb_true_r. symmetry.
  apply (stream_bit_at words f k (f / 64)); trivial; lia.
Qed.

(** The field runs over the end of a word into the next one. *)
Lemma field_across_words (words : list Z) (f n w w2 : Z) :
  uint64s words -> 0 <= f -> 0 <= n <= 64 ->
  index words (Z.shiftr f 6) = Ok w ->
  index words (Z.shiftr (f + n) 6) = Ok w2 ->
  64 - n < Z.land f 63 ->
  Z.lor (Z.shiftr w (Z.land f 63))
    (Z.land (u64 (Z.shiftl w2 (64 - Z.land f 63))) (2 ^ n - 1))
  = bit_field words f n.
Proof.
  intros Hw Hf Hn Hidx Hidx2 Hj.
  rewrite land_63 in *. rewrite shiftr_6 in Hidx, Hidx2. rewrite mask_ones.
  pose proof (Z.mod_pos_bound f 64 ltac:(lia)) as Hjr.
  pose proof (Z.div_mod f 64 ltac:(lia)) as Hdm.
  assert (Hq : 0 <= f / 64) by (apply Z.div_pos; lia).
  assert (Hq2 : (f + n) / 64 = f / 64 + 1).
  { replace (f + n) with ((f mod 64 + n - 64) + (f / 64 + 1) * 64) by lia.
    rewrite Z.div_add, Z.div_small by lia. lia. }
  rewrite Hq2 in Hidx2.
  assert (Hw1 : 0 <= w < 2 ^ 64).
  { destruct (index_Ok words _ w 0 Hidx) as [_ <-]. now apply uint64s_nth. }
  unfold bit_field, u64. apply Z.bits_inj'. intros k Hk.
  rewrite Z.lor_spec, !Z.land_spec, !Z.shiftr_spec by lia.
  rewrite Z.testbit_mod_pow2, Z.shiftl_spec, !Z.testbit_ones_nonneg by lia.
  destruct (Z.ltb_spec k n) as [Hkn | Hkn].
  - rewrite !andb_true_r.
    assert (Hk64 : (k <? 64) = true) by (apply Z.ltb_lt; lia).
    rewrite Hk64, andb_true_l.
    destruct (Z.ltb_spec (k + f mod 64) 64) as [Hlo | Hhi].
    + rewrite (Z.testbit_neg_r w2) by lia. rewrite orb_false_r. symmetry.
      apply (stream_bit_at words f k (f / 64)); trivial; lia.
    + rewrite (uint64_high_bits w _ Hw1 Hhi), orb_false_l. symmetry.
      replace (k - (64 - f mod 64)) with (k + f mod 64 - 64) by lia.
      apply (stream_bit_at words f k (f / 64 + 1)); trivial; lia.
  - rewrite !andb_false_r, orb_false_r.
    apply uint64_high_bits; trivial; lia.
Qed.

(** ** The node decoder *)

(** Takes apart a hypothesis [H : e = Ok x] along the binds, tests and
    matches of [e]. *)
Ltac break_Ok H :=
  repeat first
    [ let a := fresh "a" in
      let E := fresh "E" in
      apply bind_Ok in H; destruct H as (a & E & H); cbv beta in H
    | match type of H with
      | (let '(_, _) := ?p in _) = Ok _ => destruct p
      | (if ?c then _ else _) = Ok _ =>
          let C := fresh "C" in destruct c eqn:C
      | match ?o with _ => _ end = Ok _ =>
          let C := fresh "C" in destruct o eqn:C
      | Panic _ = Ok _ => discriminate H
      | OutOfFuel = Ok _ => discriminate H
      end ].

Section Decoder.

Context {L : Low} {V : Type}.

Implicit Types (st : SlimTrie V) (k : list byte) (qr : querySession).

Lemma getInnerPrefix_frame st (ii : Z) qr qr' :
  getInnerPrefix st ii qr = Ok qr' ->
  same_query qr qr' /\ same_inner qr qr' /\ same_leaf qr qr'.
Proof.
  unfold getInnerPrefix. intros H. break_Ok H;
    injection H as <-; unfold same_query, same_inner, same_leaf; simpl;
    repeat split.
Qed.

Lemma getInnerRange_frame st (ii : Z) qr qr' :
  getInnerRange st ii qr = Ok qr' ->
  same_query qr qr' /\ same_leaf qr qr' /\
  isInner qr' = isInner qr /\ ithInner qr' = ithInner qr /\
  hasInnerPrefix qr' = hasInnerPrefix qr /\
  innerPrefixLen qr' = innerPrefixLen qr /\
  (wordSize qr' = Const.wordSize \/ wordSize qr' = Const.bigWordSize).
Proof.
  unfold getInnerRange. intros H. break_Ok H;
    injection H as <-; unfold same_query, same_leaf; simpl;
    repeat split; auto.
Qed.

Lemma getLeafPrefix_frame st (nodeid : Z) qr qr' :
  getLeafPrefix st nodeid qr = Ok qr' ->
  same_query qr qr' /\ same_inner qr qr'.
Proof.
  unfold getLeafPrefix. intros H. break_Ok H;
    injection H as <-; unfold same_query, same_inner; simpl; repeat split.
Qed.

(** What [getNode] does at an inner node. *)
Lemma getNode_inner st (nodeId : Z) qr0 qr :
  getNode st nodeId qr0 = Ok qr ->
  isInner qr <> 0 ->
  exists nt ii isIn q1,
    NodeTypeBM (inner st) = Some nt /\
    bitmap_Rank64 (Words nt) (RankIndex nt) nodeId = Ok (ii, isIn) /\
    isIn <> 0 /\
    getInnerRange st ii
      (set_rank (set_hasInnerPrefix (set_innerPrefixLen qr0 0) false) ii isIn)
    = Ok q1 /\
    getInnerPrefix st ii q1 = Ok qr /\
    isInner qr = isIn /\ ithInner qr = ii.
Proof.
  unfold getNode. intros H Hin.
  destruct (NodeTypeBM (inner st)) as [nt |] eqn:Hnt; [| discriminate].
  apply bind_Ok in H. destruct H as ([ii isIn] & ER & H).
  destruct (Z.eqb_spec isIn 0) as [-> | Hne].
  - apply getLeafPrefix_frame in H. destruct H as (_ & HI).
    destruct HI as (_ & _ & _ & _ & HI & _). simpl in HI. contradiction.
  - apply bind_Ok in H. destruct H as (q1 & E1 & H).
    exists nt, ii, isIn, q1. repeat split; trivial.
    + apply getInnerPrefix_frame in H. destruct H as (_ & HI & _).
      apply getInnerRange_frame in E1.
      destruct E1 as (_ & _ & E1 & _). destruct HI as (_ & _ & _ & _ & HI & _).
      rewrite HI, E1. reflexivity.
    + apply getInnerPrefix_frame in H. destruct H as (_ & HI & _).
      apply getInnerRange_frame in E1.
      destruct E1 as (_ & _ & _ & E1 & _).
      destruct HI as (_ & _ & _ & _ & _ & HI).
      rewrite HI, E1. reflexivity.
Qed.

(** C5.  For an inner node that is not big ([ithInner >= BigInnerCnt]),
    with [(ithShort, isShort)] the rank of [ithInner] in [ShortBM]: the
    decoder sets [from = BigInnerOffset + 17*ithInner +
    (ShortSize-17)*ithShort]; and when the node is short it sets
    [to = from + ShortSize] and [bm] to the entry of [ShortTable] at the
    [ShortSize]-bit field of [Inners.Words] that starts at bit [from],
    whether or not the field crosses a word boundary.  The sums are
    [int32] sums. *)
Theorem getNode_short_inner st (nodeId : Z) qr0 qr :
  vars_init st ->
  uint64s (Words (Inners (inner st))) ->
  0 <= ShortSize (inner st) <= 64 ->
  getNode st nodeId qr0 = Ok qr ->
  isInner qr <> 0 ->
  BigInnerCnt (inner st) <= ithInner qr ->
  exists ithShort isShort,
    bitmap_Rank64 (Words (ShortBM (inner st))) (RankIndex (ShortBM (inner st)))
      (ithInner qr) = Ok (ithShort, isShort) /\
    from qr = i32 (BigInnerOffset (vars st) + 17 * ithInner qr
                   + (ShortSize (inner st) - 17) * ithShort) /\
    (isShort <> 0 ->
     to qr = i32 (from qr + ShortSize (inner st)) /\
     index (ShortTable (inner st))
       (bit_field (Words (Inners (inner st))) (from qr) (ShortSize (inner st)))
     = Ok (bm qr)).
Proof.
  intros [Hsmi Hmask] Hwords Hsize Hnode Hin Hbig.
  destruct (getNode_inner st nodeId qr0 qr Hnode Hin)
    as (nt & ii & isIn & q1 & _ & _ & _ & Hrange & Hpref & _ & Hii).
  apply getInnerPrefix_frame in Hpref.
  destruct Hpref as (_ & (_ & Hf & Ht & Hb & _ & _) & _).
  rewrite Hf, Ht, Hb, Hii in *. clear Hf Ht Hb Hii.
  unfold getInnerRange in Hrange.
  apply Z.ltb_ge in Hbig. rewrite Hbig in Hrange.
  apply bind_Ok in Hrange. destruct Hrange as ([ithShort isShort] & ER & H).
  exists ithShort, isShort. split; [exact ER |].
  rewrite Hsmi, Hmask in H. unfold Const.innerSize in H.
  set (f := i32 (i32 (BigInnerOffset (vars st) + i32 (17 * ii))
                 + i32 ((ShortSize (inner st) - 17) * ithShort))) in *.
  assert (Hfeq : f = i32 (BigInnerOffset (vars st) + 17 * ii
                          + (ShortSize (inner st) - 17) * ithShort)).
  { unfold f. rewrite i32_add_r, i32_add_l.
    replace (BigInnerOffset (vars st) + i32 (17 * ii)
             + (ShortSize (inner st) - 17) * ithShort)
      with (BigInnerOffset (vars st)
            + (ShortSize (inner st) - 17) * ithShort + i32 (17 * ii)) by lia.
    rewrite i32_add_r. f_equal. lia. }
  destruct (Z.eqb_spec isShort 0) as [Hz | Hnz].
  - injection H as <-. simpl. split; [exact Hfeq |]. intros Hc. contradiction.
  - apply bind_Ok in H. destruct H as (w & Ew & H).
    apply bind_Ok in H. destruct H as (v & Ev & H).
    apply bind_Ok in H. destruct H as (e & Ee & H).
    injection H as <-. simpl.
    split; [exact Hfeq |]. intros _. split; [reflexivity |].
    assert (Hf0 : 0 <= f).
    { destruct (index_Ok _ _ w 0 Ew) as [[Hlo _] _].
      rewrite shiftr_6 in Hlo.
      destruct (Z.lt_ge_cases f 0) as [Hneg | Hpos]; [| exact Hpos].
      assert (f / 64 < 0) by (apply Z.div_lt_upper_bound; lia). lia. }
    rewrite (i32_small (64 - ShortSize (inner st))) in Ev by lia.
    destruct (Z.leb_spec (Z.land f 63) (64 - ShortSize (inner st)))
      as [Hle | Hgt].
    + injection Ev as <-.
      rewrite (field_in_word (Words (Inners (inner st))) f
                 (ShortSize (inner st)) w) in Ee; trivial; lia.
    + apply bind_Ok in Ev. destruct Ev as (w2 & Ew2 & Ev).
      cbv beta in Ev.
      assert (Hv : v = Z.lor (Z.shiftr w (Z.land f 63))
                         (Z.land (u64 (Z.shiftl w2 (64 - Z.land f 63)))
                            (2 ^ ShortSize (inner st) - 1)))
        by congruence.
      clear Ev. rewrite Hv in Ee. clear Hv.
      assert (Ht : i32 (f + ShortSize (inner st)) = f + ShortSize (inner st)).
      { destruct (index_Ok _ _ w2 0 Ew2) as [[Hlo _] _].
        rewrite shiftr_6 in Hlo.
        pose proof (i32_range (BigInnerOffset (vars st) + 17 * ii
                     + (ShortSize (inner st) - 17) * ithShort)) as Hr.
        rewrite <- Hfeq in Hr.
        destruct (Z.lt_ge_cases (f + ShortSize (inner st)) (2 ^ 31))
          as [Hok | Hwrap]; [apply i32_small; lia |].
        exfalso.
        assert (Hneg : i32 (f + ShortSize (inner st))
                       = f + ShortSize (inner st) - 2 ^ 32).
        { unfold i32.
          replace (f + ShortSize (inner st) + 2 ^ 31)
            with (f + ShortSize (inner st) - 2 ^ 31 + 1 * 2 ^ 32) by lia.
          rewrite Z.mod_add, Z.mod_small by lia. lia. }
        rewrite Hneg in Hlo.
        assert ((f + ShortSize (inner st) - 2 ^ 32) / 64 < 0)
          by (apply Z.div_lt_upper_bound; lia).
        lia. }
      rewrite Ht in Ew2.
      rewrite (field_across_words (Words (Inners (inner st))) f
                 (ShortSize (inner st)) w w2) in Ee; trivial; lia.
Qed.

End Decoder.

Lemma getNode_short_inner_witness :
  getNode demoShort 7 (newSession 0 []) =
  Ok (set_bm (set_to (set_from (set_wordSize
        (set_rank (newSession 0 []) 7 1) 4) 63) 72) 385) /\
  bit_field [2 ^ 63; 2] 63 9 = 5 /\
  exists ithShort isShort qr,
    getNode demoShort 7 (newSession 0 []) = Ok qr /\
    rank_model [255] 7 = Ok (ithShort, isShort) /\
    from qr = i32 (0 + 17 * 7 + (9 - 17) * ithShort) /\
    (isShort <> 0 ->
     to qr = i32 (from qr + 9) /\
     index [0; 1; 3; 5; 9; 385] (bit_field [2 ^ 63; 2] (from qr) 9)
     = Ok (bm qr)).
Proof.
  assert (Hn : getNode demoShort 7 (newSession 0 []) =
               Ok (set_bm (set_to (set_from (set_wordSize
                     (set_rank (newSession 0 []) 7 1) 4) 63) 72) 385))
    by (vm_compute; reflexivity).
  split; [exact Hn |].
  split; [vm_compute; reflexivity |].
  destruct (getNode_short_inner demoShort 7 (newSession 0 []) _
              ltac:(split; reflexivity)
              ltac:(repeat constructor; discriminate)
              ltac:(simpl; lia) Hn ltac:(simpl; lia) ltac:(simpl; lia))
    as (ithShort & isShort & Hr & Hf & Hs).
  exists ithShort, isShort. eexists. split; [exact Hn |].
  split; [exact Hr |]. split; [exact Hf |]. exact Hs.
Defined.

(** ** The descent *)

Lemma i32_mod4 (z : Z) : i32 z mod 4 = z mod 4.
Proof.
  unfold i32. change (2 ^ 31) with (4 * 536870912).
  change (2 ^ 32) with (4 * 1073741824).
  rewrite Z.rem_mul_r by lia.
  replace ((z + 4 * 536870912) mod 4 +
           4 * (((z + 4 * 536870912) / 4) mod 1073741824) - 4 * 536870912)
    with ((z + 4 * 536870912) mod 4 +
          ((((z + 4 * 536870912) / 4) mod 1073741824) - 536870912) * 4)
    by lia.
  rewrite Z.mod_add, Z.mod_mod by lia.
  replace (z + 4 * 536870912) with (z + 536870912 * 4) by lia.
  now rewrite Z.mod_add by lia.
Qed.

Lemma i32_mod8 (z : Z) : i32 z mod 8 = z mod 8.
Proof.
  unfold i32. change (2 ^ 31) with (8 * 268435456).
  change (2 ^ 32) with (8 * 536870912).
  rewrite Z.rem_mul_r by lia.
  replace ((z + 8 * 268435456) mod 8 +
           8 * (((z + 8 * 268435456) / 8) mod 536870912) - 8 * 268435456)
    with ((z + 8 * 268435456) mod 8 +
          ((((z + 8 * 268435456) / 8) mod 536870912) - 268435456) * 8)
    by lia.
  rewrite Z.mod_add, Z.mod_mod by lia.
  replace (z + 8 * 268435456) with (z + 268435456 * 8) by lia.
  now rewrite Z.mod_add by lia.
Qed.

Lemma land_lnot_7 (i : Z) : Z.land i (Z.lnot 7) = 8 * (i / 8).
Proof.
  rewrite <- Z.ldiff_land. change 7 with (Z.ones 3).
  rewrite Z.ldiff_ones_r by lia.
  rewrite Z.shiftl_mul_pow2, Z.shiftr_div_pow2 by lia.
  change (2 ^ 3) with 8. lia.
Qed.

Lemma slice_from_Ok {A : Type} (l : list A) (lo : Z) (t : list A) :
  slice_from l lo = Ok t ->
  0 <= lo <= len l /\ len t = len l - lo /\ t = skipn (Z.to_nat lo) l.
Proof.
  unfold slice_from, slice.
  destruct (Z.leb_spec 0 lo); simpl; [| discriminate].
  destruct (Z.leb_spec lo (len l)); simpl; [| discriminate].
  rewrite Z.leb_refl. intros [= <-].
  assert (Hlen : (length l - Z.to_nat lo <= Z.to_nat (len l - lo))%nat)
    by (unfold len in *; lia).
  rewrite firstn_all2 by (rewrite length_skipn; exact Hlen).
  split; [lia |]. split; [| reflexivity].
  unfold len in *. rewrite length_skipn. lia.
Qed.

Lemma bytes_Equal_true (a b : list byte) : bytes_Equal a b = true <-> a = b.
Proof.
  unfold bytes_Equal. destruct (list_eq_dec Byte.byte_eq_dec a b);
    split; congruence.
Qed.

Lemma byte_val_inj (x y : byte) : byte_val x = byte_val y -> x = y.
Proof.
  unfold byte_val. intros H. apply N2Z.inj in H.
  pose proof (Byte.of_to_N x) as Hx. pose proof (Byte.of_to_N y) as Hy.
  rewrite H in Hx. congruence.
Qed.

Lemma bytes_Compare_cases (a b : list byte) :
  (bytes_Compare a b = 0 /\ a = b) \/
  (bytes_Compare a b = -1 /\ a <> b) \/
  (bytes_Compare a b = 1 /\ a <> b).
Proof.
  revert b. induction a as [| x a IH]; intros [| y b]; simpl.
  - left. split; reflexivity.
  - right. left. split; [reflexivity | discriminate].
  - right. right. split; [reflexivity | discriminate].
  - destruct (Z.ltb_spec (byte_val x) (byte_val y)).
    + right. left. split; [reflexivity |]. intros [= -> _]. lia.
    + destruct (Z.ltb_spec (byte_val y) (byte_val x)).
      * right. right. split; [reflexivity |]. intros [= -> _]. lia.
      * assert (x = y) by (apply byte_val_inj; lia). subst y.
        destruct (IH b) as [[-> ->] | [[-> Hn] | [-> Hn]]].
        -- left. split; reflexivity.
        -- right. left. split; [reflexivity | congruence].
        -- right. right. split; [reflexivity | congruence].
Qed.

Section Descent.

Context {L : Low} {V : Type}.

Implicit Types (st : SlimTrie V) (k : list byte) (qr : querySession).

(** What [getNode] does at a leaf. *)
Lemma getNode_leaf st (nodeId : Z) qr0 qr :
  getNode st nodeId qr0 = Ok qr -> isInner qr = 0 -> is_leaf st nodeId.
Proof.
  unfold getNode. intros H Hin.
  destruct (NodeTypeBM (inner st)) as [nt |] eqn:Hnt; [| discriminate].
  apply bind_Ok in H. destruct H as ([ii isIn] & ER & H).
  destruct (Z.eqb_spec isIn 0) as [-> | Hne].
  - exists nt, ii. split; [exact Hnt | exact ER].
  - exfalso. apply bind_Ok in H. destruct H as (q1 & E1 & H).
    apply getInnerPrefix_frame in H. destruct H as (_ & HI & _).
    apply getInnerRange_frame in E1. destruct E1 as (_ & _ & E1 & _).
    destruct HI as (_ & _ & _ & _ & HI & _).
    rewrite HI, E1 in Hin. simpl in Hin. contradiction.
Qed.

(** What [getNode] leaves of the scratch record at an inner node. *)
Lemma getNode_inner_frame st (nodeId : Z) qr0 qr :
  getNode st nodeId qr0 = Ok qr -> isInner qr <> 0 ->
  same_query qr0 qr /\ same_leaf qr0 qr /\
  (wordSize qr = Const.wordSize \/ wordSize qr = Const.bigWordSize) /\
  (hasInnerPrefix qr = true ->
   bitstr_Len (innerPrefix qr) = Ok (innerPrefixLen qr)).
Proof.
  intros H Hin.
  destruct (getNode_inner st nodeId qr0 qr H Hin)
    as (nt & ii & isIn & q1 & _ & _ & _ & Hrange & Hpref & _ & _).
  pose proof (getInnerRange_frame st ii _ q1 Hrange)
    as ((Hk1 & Hk2) & (Hl1 & Hl2 & Hl3) & _ & _ & Hp1 & _ & Hws).
  pose proof (getInnerPrefix_frame st ii q1 qr Hpref)
    as ((Hk3 & Hk4) & (Hws' & _) & (Hl4 & Hl5 & Hl6)).
  simpl in *.
  split; [split; congruence |].
  split; [repeat split; congruence |].
  split.
  - rewrite Hws'. exact Hws.
  - clear - Hpref Hp1. unfold getInnerPrefix in Hpref.
    intros Hhas. break_Ok Hpref; injection Hpref as <-; simpl in *;
      congruence.
Qed.

Lemma getLeftChildID_label st qr (i lch has : Z) :
  getLeftChildID st qr i = Ok (lch, has) ->
  exists ithBit,
    getLabelIdxOfKey qr i = Ok ithBit /\
    leftChildOfLabel st qr ithBit = Ok (lch, has).
Proof.
  unfold getLeftChildID. intros H.
  apply bind_Ok in H. destruct H as (ithBit & E & H). eauto.
Qed.

Lemma leftChildOfLabel_bit st qr (ithBit lch has : Z) :
  low_contract ->
  leftChildOfLabel st qr ithBit = Ok (lch, has) -> has = 0 \/ has = 1.
Proof.
  intros HC. unfold leftChildOfLabel.
  destruct (i32 (to qr - from qr) =? ShortSize (inner st)).
  - intros H. break_Ok H. injection H as _ <-.
    assert (E1 : Z.land (Z.shiftr (bm qr) ithBit) 1
                 = Z.shiftr (bm qr) ithBit mod 2)
      by (apply (Z.land_ones (Z.shiftr (bm qr) ithBit) 1); lia).
    rewrite E1.
    pose proof (Z.mod_pos_bound (Z.shiftr (bm qr) ithBit) 2 ltac:(lia)).
    lia.
  - intros H. eapply (rank128_bit HC). exact H.
Qed.

(** The cursor after the inner prefix of a decoded inner node is again on a
    label boundary. *)
Lemma aligned_after_prefix st (eqID i l : Z) qr0 qr :
  well_formed st ->
  descent_inv st l (eqID, i, qr0) ->
  getNode st eqID qr0 = Ok qr -> isInner qr <> 0 ->
  forall base, (base = i \/ base = Z.land i (Z.lnot 7)) ->
  (base + innerPrefixLen qr) mod 4 = 0 /\
  (wordSize qr = Const.bigWordSize -> (base + innerPrefixLen qr) mod 8 = 0).
Proof.
  intros HW (Hi & Hm4 & Hsmall & _ & _) Hnode Hin base Hbase.
  destruct (wf_prefix_len st HW eqID qr0 qr Hnode Hin) as (_ & Hp4 & Hp8).
  assert (Hb4 : base mod 4 = 0).
  { destruct Hbase as [-> | ->]; [exact Hm4 |].
    rewrite land_lnot_7. replace (8 * (i / 8)) with (2 * (i / 8) * 4) by lia.
    apply Z.mod_mul. lia. }
  split.
  - rewrite Z.add_mod, Hb4, Hp4 by lia. reflexivity.
  - intros Hbig. specialize (Hp8 Hbig).
    assert (Hb8 : base mod 8 = 0).
    { destruct Hbase as [-> | ->].
      - destruct (Z.eq_dec (i mod 8) 0) as [E | E]; [exact E |].
        specialize (Hsmall E qr0 qr Hnode Hin).
        rewrite Hsmall in Hbig. discriminate.
      - rewrite land_lnot_7, Z.mul_comm. apply Z.mod_mul. lia. }
    rewrite Z.add_mod, Hb8, Hp8 by lia. reflexivity.
Qed.

(** A key tail that matches the stored prefix leaves the cursor within the
    key. *)
Lemma matched_prefix_in_key st k (eqID i l : Z) qr0 qr tail :
  low_contract -> well_formed st ->
  l = 8 * len k -> l < 2 ^ 31 ->
  getNode st eqID qr0 = Ok qr -> isInner qr <> 0 ->
  hasInnerPrefix qr = true ->
  slice_from k (Z.shiftr i 3) = Ok tail ->
  bitstr_StrCmpUpto tail (innerPrefix qr) = Ok 0 ->
  0 <= Z.land i (Z.lnot 7) + innerPrefixLen qr <= l.
Proof.
  intros HC HW Hl Hlt Hnode Hin Hhp Htail Hcmp.
  destruct (wf_prefix_len st HW eqID qr0 qr Hnode Hin) as (Hp0 & _ & _).
  destruct (getNode_inner_frame st eqID qr0 qr Hnode Hin)
    as (_ & _ & _ & Hlen).
  pose proof (cmp_equal_covers HC tail (innerPrefix qr) _ Hcmp (Hlen Hhp))
    as Hcov.
  apply slice_from_Ok in Htail. destruct Htail as (Hr & Hlt' & _).
  rewrite Z.shiftr_div_pow2 in Hr, Hlt' by lia. change (2 ^ 3) with 8 in *.
  rewrite land_lnot_7. lia.
Qed.

Lemma next_label_in_key (i l w : Z) :
  i <= l -> i <> l -> i mod w = 0 -> l mod w = 0 -> 0 < w -> i + w <= l.
Proof.
  intros Hle Hne Hi Hl Hw.
  pose proof (Z.div_mod i w ltac:(lia)) as Di.
  pose proof (Z.div_mod l w ltac:(lia)) as Dl.
  rewrite Hi in Di. rewrite Hl in Dl.
  assert (i / w < l / w) by nia. nia.
Qed.

(** The step from a decoded inner node to the child the key's label picks,
    shared by the two descents. *)
Lemma child_step st (eqID i i1 l lch has : Z) qr0 qr :
  well_formed st ->
  l mod 8 = 0 -> l < 2 ^ 31 ->
  descent_inv st l (eqID, i, qr0) ->
  getNode st eqID qr0 = Ok qr -> isInner qr <> 0 ->
  - 2 ^ 31 <= i1 <= l ->
  i1 mod 4 = 0 ->
  (wordSize qr = Const.bigWordSize -> i1 mod 8 = 0) ->
  getLeftChildID st qr i1 = Ok (lch, has) -> has <> 0 ->
  (i1 = l -> descent_end st l (i32 (lch + 1), i1, qr)) /\
  (i1 <> l -> descent_inv st l (i32 (lch + 1), i32 (i1 + wordSize qr), qr)).
Proof.
  intros HW Hl8 Hlt (Hi & Hm4 & Hsmall & Hnl & Hkl) Hnode Hin Hi1 H4 H8 Hch Hhas.
  destruct (getNode_inner_frame st eqID qr0 qr Hnode Hin)
    as ((Hk1 & _) & (_ & Hl2 & _) & Hws & _).
  destruct (getLeftChildID_label st qr i1 lch has Hch) as (ithBit & Hlab & Hlc).
  assert (H0 : 0 <= i1).
  { destruct (Z.lt_ge_cases i1 0) as [Hneg | Hpos]; [| exact Hpos].
    exfalso. unfold getLabelIdxOfKey in Hlab. rewrite Hk1, Hkl in Hlab.
    assert (Hb : (i1 <? l) = true) by (apply Z.ltb_lt; lia).
    rewrite Hb in Hlab.
    assert (Hidx : exists b, index (key qr) (Z.shiftr i1 3) = Ok b).
    { destruct (wordSize qr =? Const.bigWordSize);
        apply bind_Ok in Hlab; destruct Hlab as (b & Hlab & _); eauto. }
    destruct Hidx as (b & Hidx).
    destruct (index_Ok _ _ b b Hidx) as [[Hlo _] _].
    rewrite Z.shiftr_div_pow2 in Hlo by lia. change (2 ^ 3) with 8 in Hlo.
    assert (i1 / 8 < 0) by (apply Z.div_lt_upper_bound; lia). lia. }
  assert (Hl4 : l mod 4 = 0).
  { pose proof (Z.div_mod l 8 ltac:(lia)) as D. rewrite Hl8 in D.
    replace l with (2 * (l / 8) * 4) by lia. apply Z.mod_mul. lia. }
  split.
  - intros ->. unfold descent_end.
    split; [lia |]. split; [exact H4 |]. split.
    + rewrite Hl2, Hnl. discriminate.
    + unfold getLabelIdxOfKey in Hlab.
      rewrite Hk1, Hkl, Z.ltb_irrefl in Hlab. injection Hlab as <-.
      exact (wf_terminator_leaf st HW eqID qr0 qr lch has Hnode Hin Hlc Hhas).
  - intros Hne. unfold descent_inv.
    destruct Hws as [Hw | Hw]; rewrite Hw.
    + pose proof (next_label_in_key i1 l 4 ltac:(lia) Hne H4 Hl4 ltac:(lia)).
      unfold Const.wordSize in *.
      rewrite (i32_small (i1 + 4)) by lia.
      split; [lia |]. split.
      * rewrite Z.add_mod, H4 by lia. reflexivity.
      * split; [| split; congruence].
        intros _.
        exact (wf_small_children st HW eqID qr0 qr ithBit lch has
                 Hnode Hin Hw Hlc Hhas).
    + specialize (H8 Hw).
      pose proof (next_label_in_key i1 l 8 ltac:(lia) Hne H8 Hl8 ltac:(lia)).
      unfold Const.bigWordSize in *.
      rewrite (i32_small (i1 + 8)) by lia.
      assert (E8 : (i1 + 8) mod 8 = 0)
        by (rewrite Z.add_mod, H8 by lia; reflexivity).
      split; [lia |]. split.
      * pose proof (Z.div_mod (i1 + 8) 8 ltac:(lia)) as D. rewrite E8 in D.
        replace (i1 + 8) with (2 * ((i1 + 8) / 8) * 4) by lia.
        apply Z.mod_mul. lia.
      * split; [intros Hc; contradiction | split; congruence].
Qed.

(** A round of [GetID] keeps the invariant of the descent. *)
Lemma GetID_round st k (l : Z) (s : getState) (c : ctl getState Z) :
  low_contract -> well_formed st ->
  l = 8 * len k -> l < 2 ^ 31 ->
  descent_inv st l s ->
  GetID_body st k l s = Ok c ->
  match c with
  | Next s' => descent_inv st l s'
  | Brk s' => descent_end st l s'
  | Return r => r = -1
  end.
Proof.
  intros HC HW Hl Hlt Hinv Hbody. destruct s as [[eqID i] qr0].
  assert (Hl8 : l mod 8 = 0)
    by (rewrite Hl, Z.mul_comm; apply Z.mod_mul; lia).
  unfold GetID_body in Hbody.
  apply bind_Ok in Hbody. destruct Hbody as (qr & Hnode & Hbody).
  destruct (Z.eqb_spec (isInner qr) 0) as [Hleaf | Hin].
  { injection Hbody as <-. destruct Hinv as (Hi & Hm4 & _).
    split; [lia |]. split; [exact Hm4 |]. split.
    - exact (wf_leaf_prefix st HW eqID qr0 qr Hnode Hleaf).
    - exact (getNode_leaf st eqID qr0 qr Hnode Hleaf). }
  apply bind_Ok in Hbody. destruct Hbody as (adv & Hadv & Hbody).
  assert (Hcur : adv = None \/
                 exists i1, adv = Some i1 /\ - 2 ^ 31 <= i1 /\ i1 mod 4 = 0 /\
                   (wordSize qr = Const.bigWordSize -> i1 mod 8 = 0)).
  { destruct (hasInnerPrefix qr) eqn:Hhp.
    - apply bind_Ok in Hadv. destruct Hadv as (tail & Htail & Hadv).
      apply bind_Ok in Hadv. destruct Hadv as (r & Hcmp & Hadv).
      destruct (r =? 0); injection Hadv as <-; [right | left; reflexivity].
      eexists. split; [reflexivity |].
      destruct (aligned_after_prefix st eqID i l qr0 qr HW Hinv Hnode Hin
                  (Z.land i (Z.lnot 7)) ltac:(auto)) as (A4 & A8).
      split; [apply i32_range |].
      rewrite i32_mod4, i32_mod8. split; assumption.
    - injection Hadv as <-. right. eexists. split; [reflexivity |].
      destruct (aligned_after_prefix st eqID i l qr0 qr HW Hinv Hnode Hin
                  i ltac:(auto)) as (A4 & A8).
      split; [apply i32_range |].
      rewrite i32_mod4, i32_mod8. split; assumption. }
  destruct Hcur as [-> | (i1 & -> & Hr1 & H4 & H8)].
  { injection Hbody as <-. reflexivity. }
  destruct (i1 >? l) eqn:Hgt.
  { injection Hbody as <-. reflexivity. }
  assert (Hle : i1 <= l).
  { destruct (Z.gtb_spec i1 l); [discriminate | lia]. }
  apply bind_Ok in Hbody. destruct Hbody as ([lch has] & Hch & Hbody).
  destruct (Z.eqb_spec has 0) as [Hz | Hnz].
  { injection Hbody as <-. reflexivity. }
  destruct (child_step st eqID i i1 l lch has qr0 qr HW Hl8 Hlt Hinv Hnode Hin
              ltac:(lia) H4 H8 Hch Hnz) as (Hend & Hnext).
  destruct (Z.eqb_spec i1 l) as [He | Hne]; injection Hbody as <-; auto.
Qed.

Lemma GetID_loop_end st k (l : Z) (fuel : nat) :
  low_contract -> well_formed st ->
  l = 8 * len k -> l < 2 ^ 31 ->
  forall s r,
    descent_inv st l s ->
    loop (GetID_body st k l) fuel s = Ok r ->
    match r with
    | inl s' => descent_end st l s'
    | inr v => v = -1
    end.
Proof.
  intros HC HW Hl Hlt. induction fuel as [| n IH]; intros s r Hinv Hloop.
  - discriminate.
  - rewrite loop_S in Hloop.
    apply bind_Ok in Hloop. destruct Hloop as (c & Hbody & Hloop).
    pose proof (GetID_round st k l s c HC HW Hl Hlt Hinv Hbody) as Hc.
    destruct c as [s' | s' | v].
    + exact (IH s' r Hc Hloop).
    + injection Hloop as <-. exact Hc.
    + injection Hloop as <-. exact Hc.
Qed.

(** A round of [searchID] is matched by the round of [GetID] from the same
    node, cursor and scratch record. *)
Lemma rounds_simulate st k (l lID eqID rID i : Z) qr0
  (c : ctl searchState Empty_set) :
  low_contract -> well_formed st ->
  l = 8 * len k -> l < 2 ^ 31 ->
  descent_inv st l (eqID, i, qr0) ->
  searchID_body st k l (lID, eqID, rID, i, qr0) = Ok c ->
  exists c', GetID_body st k l (eqID, i, qr0) = Ok c' /\ rounds_agree c c'.
Proof.
  intros HC HW Hl Hlt Hinv Hbody.
  unfold searchID_body in Hbody. unfold GetID_body.
  apply bind_Ok in Hbody. destruct Hbody as (qr & Hnode & Hbody).
  rewrite Hnode. simpl bind.
  destruct (Z.eqb_spec (isInner qr) 0) as [Hleaf | Hin].
  { injection Hbody as <-. eexists. split; reflexivity. }
  apply bind_Ok in Hbody. destruct Hbody as (adv & Hadv & Hbody).
  unfold searchID_prefix in Hadv.
  assert (Hpick :
    forall i1, i1 <= l -> searchID_pick st l (lID, eqID, rID, i1, qr) = Ok c ->
    exists c',
      (' (lchID, has) <- getLeftChildID st qr i1 ;;
       (if has =? 0 then Ok (Return (-1))
        else
          if i1 =? l then Ok (Brk (i32 (lchID + 1), i1, qr))
          else Ok (Next (i32 (lchID + 1), i32 (i1 + wordSize qr), qr))))
      = Ok c' /\ rounds_agree c c').
  { intros i1 Hle Hp.
    unfold searchID_pick in Hp.
    apply bind_Ok in Hp. destruct Hp as ([lch has] & Hch & Hp).
    rewrite Hch. simpl bind.
    apply bind_Ok in Hp. destruct Hp as ([lm x] & _ & Hp).
    apply bind_Ok in Hp. destruct Hp as ([rm bit] & _ & Hp).
    destruct (getLeftChildID_label st qr i1 lch has Hch) as (b & _ & Hlc).
    destruct (Z.eqb_spec has 0) as [Hz | Hnz].
    - injection Hp as <-. eexists. split; [reflexivity |]. simpl. auto.
    - assert (has = 1)
        by (destruct (leftChildOfLabel_bit st qr b lch has HC Hlc); lia).
      subst has.
      destruct (Z.eqb_spec i1 l); injection Hp as <-;
        eexists; (split; [reflexivity |]); reflexivity. }
  destruct (hasInnerPrefix qr) eqn:Hhp.
  - apply bind_Ok in Hadv. destruct Hadv as (tail & Htail & Hadv).
    apply bind_Ok in Hadv. destruct Hadv as (r & Hcmp & Hadv).
    rewrite Htail. simpl bind. rewrite Hcmp. simpl bind.
    destruct (Z.eqb_spec r 0) as [-> | Hr].
    + injection Hadv as <-. simpl.
      pose proof (matched_prefix_in_key st k eqID i l qr0 qr tail HC HW Hl Hlt
                    Hnode Hin Hhp Htail Hcmp) as Hin_key.
      rewrite (i32_small (Z.land i (Z.lnot 7) + innerPrefixLen qr)) in *
        by lia.
      assert (Hgt : (Z.land i (Z.lnot 7) + innerPrefixLen qr >? l) = false).
      { destruct (Z.gtb_spec (Z.land i (Z.lnot 7) + innerPrefixLen qr) l);
          [lia | reflexivity]. }
      rewrite Hgt. apply Hpick; [lia | exact Hbody].
    + destruct (r <? 0); injection Hadv as <-; injection Hbody as <-;
        eexists; (split; [reflexivity |]); simpl; auto.
  - simpl. destruct (i32 (i + innerPrefixLen qr) >? l) eqn:Hgt.
    + injection Hadv as <-. injection Hbody as <-.
      eexists. split; [reflexivity |]. simpl. auto.
    + injection Hadv as <-.
      apply Hpick; [| exact Hbody].
      destruct (Z.gtb_spec (i32 (i + innerPrefixLen qr)) l);
        [discriminate | lia].
Qed.

(** The descent of [searchID] is matched by the descent of [GetID]: both
    leave their loop at the same node, cursor and scratch record, unless
    [searchID] has lost the match, in which case [GetID] has returned -1. *)
Lemma descents_simulate st k (l : Z) (fuel : nat) :
  low_contract -> well_formed st ->
  l = 8 * len k -> l < 2 ^ 31 ->
  forall lID eqID rID i qr0 lID' eqID' rID' i' qr',
    descent_inv st l (eqID, i, qr0) ->
    loop (searchID_body st k l) fuel (lID, eqID, rID, i, qr0)
    = Ok (inl (lID', eqID', rID', i', qr')) ->
    (loop (GetID_body st k l) fuel (eqID, i, qr0) = Ok (inl (eqID', i', qr')) /\
     descent_end st l (eqID', i', qr')) \/
    (eqID' = -1 /\ loop (GetID_body st k l) fuel (eqID, i, qr0) = Ok (inr (-1))).
Proof.
  intros HC HW Hl Hlt. induction fuel as [| n IH];
    intros lID eqID rID i qr0 lID' eqID' rID' i' qr' Hinv Hloop.
  - discriminate.
  - rewrite loop_S in Hloop. rewrite loop_S.
    apply bind_Ok in Hloop. destruct Hloop as (c & Hbody & Hloop).
    destruct (rounds_simulate st k l lID eqID rID i qr0 c HC HW Hl Hlt
                Hinv Hbody) as (c' & Hget & Hagree).
    pose proof (GetID_round st k l _ c' HC HW Hl Hlt Hinv Hget) as Hc'.
    rewrite Hget. simpl bind.
    destruct c as [[[[[l1 e1] r1] i1] q1] | [[[[l1 e1] r1] i1] q1] | []];
      destruct c' as [s' | s' | v]; simpl in Hagree; try contradiction.
    + subst s'. exact (IH _ _ _ _ _ _ _ _ _ _ Hc' Hloop).
    + subst s'. injection Hloop as <- <- <- <- <-. left. split; trivial.
    + destruct Hagree as [-> ->]. injection Hloop as <- <- <- <- <-.
      right. split; reflexivity.
Qed.

(** The code of [GetID] after its loop compares the key tail with the leaf
    prefix, taken to be empty when the leaf has none. *)
Lemma GetID_finish_tail st k (l eqID i : Z) qr tail lp :
  l = 8 * len k ->
  descent_end st l (eqID, i, qr) ->
  LeafPrefixes (inner st) = Some lp ->
  slice_from k (Z.shiftr i 3) = Ok tail ->
  GetID_finish st k l (eqID, i, qr)
  = Ok (if bytes_Equal tail (if hasLeafPrefix qr then leafPrefix qr else [])
        then eqID else -1).
Proof.
  intros Hl (Hle & _ & Hne & _) Hlp Htail.
  unfold GetID_finish. rewrite Hlp.
  destruct (slice_from_Ok k _ tail Htail) as (Hr & Hlen & _).
  rewrite Z.shiftr_div_pow2 in Hr, Hlen by lia. change (2 ^ 3) with 8 in *.
  destruct (Z.eqb_spec i l) as [He | Hn].
  - assert (Ht : tail = []).
    { subst i l. rewrite Z.mul_comm, Z.div_mul in Hlen by lia.
      unfold len in Hlen. destruct tail; [reflexivity | simpl in Hlen; lia]. }
    subst tail. destruct (hasLeafPrefix qr).
    + specialize (Hne eq_refl).
      destruct (bytes_Equal [] (leafPrefix qr)) eqn:E; [| reflexivity].
      apply bytes_Equal_true in E. congruence.
    + reflexivity.
  - assert (Ht : tail <> []).
    { intros ->. unfold len in Hlen. simpl in Hlen.
      assert (i / 8 < len k) by (apply Z.div_lt_upper_bound; lia).
      unfold len in *. lia. }
    destruct (hasLeafPrefix qr); simpl.
    + rewrite Htail. simpl.
      destruct (bytes_Equal (leafPrefix qr) tail) eqn:E1;
        destruct (bytes_Equal tail (leafPrefix qr)) eqn:E2; try reflexivity.
      * apply bytes_Equal_true in E1. symmetry in E1.
        apply bytes_Equal_true in E1. congruence.
      * apply bytes_Equal_true in E2. symmetry in E2.
        apply bytes_Equal_true in E2. congruence.
    + destruct (bytes_Equal tail []) eqn:E; [| reflexivity].
      apply bytes_Equal_true in E. contradiction.
Qed.

Lemma descent_inv_root st k (l : Z) :
  0 <= l -> descent_inv st l (0, 0, newSession l k).
Proof.
  intros Hl. unfold descent_inv. simpl.
  split; [lia |]. split; [reflexivity |].
  split; [intros H; now contradiction H |]. split; reflexivity.
Qed.

Lemma key_bit_length k :
  8 * len k < 2 ^ 31 -> i32 (8 * len k) = 8 * len k /\ 0 <= 8 * len k.
Proof.
  intros H. unfold len in *. split; [apply i32_small |]; lia.
Qed.

Lemma GetID_descent_at_leaf (fuel : nat) st k (s : getState) :
  low_contract -> well_formed st ->
  8 * len k < 2 ^ 31 ->
  GetID_descent fuel st k = Ok (inl s) ->
  descent_end st (8 * len k) s.
Proof.
  intros HC HW Hk Hd. unfold GetID_descent in Hd.
  destruct (key_bit_length k Hk) as (Hl & Hl0). rewrite Hl in Hd.
  exact (GetID_loop_end st k (8 * len k) fuel HC HW eq_refl Hk _ (inl s)
           (descent_inv_root st k _ Hl0) Hd).
Qed.

Lemma tail_in_key k (i : Z) :
  0 <= i <= 8 * len k -> exists tail, slice_from k (Z.shiftr i 3) = Ok tail.
Proof.
  intros Hi. unfold slice_from, slice.
  rewrite Z.shiftr_div_pow2 by lia. change (2 ^ 3) with 8.
  assert (0 <= i / 8) by (apply Z.div_pos; lia).
  assert (i / 8 <= len k) by (apply Z.div_le_upper_bound; lia).
  destruct (Z.leb_spec 0 (i / 8)); [| lia].
  destruct (Z.leb_spec (i / 8) (len k)); [| lia].
  rewrite Z.leb_refl. simpl. eauto.
Qed.


Lemma searchID_drill_eq (fuel : nat) st (t t' : Z * Z * Z) :
  searchID_drill fuel st t = Ok t' -> snd (fst t') = snd (fst t).
Proof.
  destruct t as [[l0 e0] r0]. unfold searchID_drill. intros H.
  apply bind_Ok in H. destruct H as (l1 & _ & H).
  apply bind_Ok in H. destruct H as (r1 & _ & H).
  injection H as <-. reflexivity.
Qed.

Lemma searchID_eq_is_GetID (fuel : nat) st k (lID eqID rID : Z) :
  low_contract -> well_formed st ->
  8 * len k < 2 ^ 31 ->
  searchID fuel st k = Ok (lID, eqID, rID) ->
  GetID fuel st k = Ok eqID.
Proof.
  intros HC HW Hk HS. unfold searchID in HS. unfold GetID.
  destruct (NodeTypeBM (inner st)) as [nt |].
  2:{ injection HS as _ <- _. reflexivity. }
  cbv zeta in *. unfold searchID_descent, GetID_descent in *.
  destruct (key_bit_length k Hk) as (Hl & Hl0). rewrite Hl in *.
  set (l := 8 * len k) in *.
  apply bind_Ok in HS. destruct HS as (r & Hloop & HS).
  destruct r as [[[[[l1 e1] r1] i1] q1] | []].
  apply bind_Ok in HS. destruct HS as (t & Hrec & Hdrill).
  apply searchID_drill_eq in Hdrill. simpl in Hdrill. subst eqID.
  destruct (descents_simulate st k l fuel HC HW eq_refl Hk
              _ _ _ _ _ _ _ _ _ _ (descent_inv_root st k l Hl0) Hloop)
    as [(Hget & Hend) | (-> & Hget)]; rewrite Hget; cbn [bind].
  2:{ simpl in Hrec. injection Hrec as <-. reflexivity. }
  destruct (tail_in_key k i1) as (tail & Htail); [apply Hend |].
  assert (Hfin : exists v, GetID_finish st k l (e1, i1, q1) = Ok v /\
                           (v = e1 \/ v = -1)).
  { unfold GetID_finish. rewrite Htail. cbn [bind].
    destruct (LeafPrefixes (inner st)); [| eauto].
    destruct (i1 =? l); destruct (hasLeafPrefix q1); cbn [negb]; eauto.
    destruct (negb (bytes_Equal (leafPrefix q1) tail)); eauto. }
  unfold searchID_reconcile in Hrec.
  destruct (Z.eqb_spec e1 (-1)) as [-> | Hne]; cbn [negb] in Hrec.
  { injection Hrec as <-. cbn [fst snd].
    destruct Hfin as (v & -> & [-> | ->]); reflexivity. }
  assert (Hle : (i1 <=? l) = true) by (apply Z.leb_le; apply Hend).
  rewrite Hle, Htail in Hrec. cbn [bind] in Hrec.
  unfold cmpLeafPrefix in Hrec.
  destruct (LeafPrefixes (inner st)) as [lp |] eqn:Hlp.
  2:{ simpl in Hrec. injection Hrec as <-. cbn [fst snd].
      unfold GetID_finish. now rewrite Hlp. }
  rewrite (GetID_finish_tail st k l e1 i1 q1 tail lp eq_refl Hend Hlp Htail).
  destruct (bytes_Compare_cases tail
              (if hasLeafPrefix q1 then leafPrefix q1 else []))
    as [[Ec Et] | [[Ec Et] | [Ec Et]]]; rewrite Ec in Hrec; simpl in Hrec;
    injection Hrec as <-; cbn [fst snd].
  - apply bytes_Equal_true in Et. now rewrite Et.
  - destruct (bytes_Equal tail _) eqn:E; [| reflexivity].
    apply bytes_Equal_true in E. contradiction.
  - destruct (bytes_Equal tail _) eqn:E; [| reflexivity].
    apply bytes_Equal_true in E. contradiction.
Qed.


(** A round of [GetID] leaves its loop at a leaf. *)
Lemma GetID_round_leaf st k (l eqID i : Z) qr0 (c : ctl getState Z) :
  well_formed st ->
  keyBitLen qr0 = l ->
  GetID_body st k l (eqID, i, qr0) = Ok c ->
  match c with
  | Next (_, _, qr) => keyBitLen qr = l
  | Brk (e, _, _) => is_leaf st e
  | Return r => r = -1
  end.
Proof.
  intros HW Hkl Hbody. unfold GetID_body in Hbody.
  apply bind_Ok in Hbody. destruct Hbody as (qr & Hnode & Hbody).
  destruct (Z.eqb_spec (isInner qr) 0) as [Hleaf | Hin].
  { injection Hbody as <-. exact (getNode_leaf st eqID qr0 qr Hnode Hleaf). }
  destruct (getNode_inner_frame st eqID qr0 qr Hnode Hin)
    as ((Hk1 & _) & _).
  apply bind_Ok in Hbody. destruct Hbody as ([i1 |] & _ & Hbody).
  2:{ injection Hbody as <-. reflexivity. }
  destruct (i1 >? l).
  { injection Hbody as <-. reflexivity. }
  apply bind_Ok in Hbody. destruct Hbody as ([lch has] & Hch & Hbody).
  destruct (Z.eqb_spec has 0) as [Hz | Hnz].
  { injection Hbody as <-. reflexivity. }
  destruct (Z.eqb_spec i1 l) as [-> | Hne]; injection Hbody as <-.
  - destruct (getLeftChildID_label st qr l lch has Hch)
      as (ithBit & Hlab & Hlc).
    unfold getLabelIdxOfKey in Hlab.
    rewrite Hk1, Hkl, Z.ltb_irrefl in Hlab. injection Hlab as <-.
    exact (wf_terminator_leaf st HW eqID qr0 qr lch has Hnode Hin Hlc Hnz).
  - congruence.
Qed.

Lemma GetID_loop_leaf st k (l : Z) (fuel : nat) :
  well_formed st ->
  forall eqID i qr0 r,
    keyBitLen qr0 = l ->
    loop (GetID_body st k l) fuel (eqID, i, qr0) = Ok r ->
    match r with
    | inl (e, _, _) => is_leaf st e
    | inr v => v = -1
    end.
Proof.
  intros HW. induction fuel as [| n IH]; intros eqID i qr0 r Hkl Hloop.
  - discriminate.
  - rewrite loop_S in Hloop.
    apply bind_Ok in Hloop. destruct Hloop as (c & Hbody & Hloop).
    pose proof (GetID_round_leaf st k l eqID i qr0 c HW Hkl Hbody) as Hc.
    destruct c as [[[e1 i1] q1] | [[e1 i1] q1] | v].
    + exact (IH e1 i1 q1 r Hc Hloop).
    + injection Hloop as <-. exact Hc.
    + injection Hloop as <-. exact Hc.
Qed.


End Descent.

(** ** The model of the bit library meets its contract *)

Lemma cmp_bits_equal_length (a b : list bool) :
  cmp_bits a b = 0 -> length a = length b.
Proof.
  revert b. induction a as [| x a IH]; intros [| y b]; simpl;
    try discriminate; trivial.
  destruct (Bool.eqb x y).
  - intros H. f_equal. auto.
  - destruct y; discriminate.
Qed.

Lemma bits_of_length (bs : list byte) :
  length (bits_of bs) = (8 * length bs)%nat.
Proof.
  unfold bits_of. induction bs as [| b bs IH]; simpl; [reflexivity |].
  rewrite IH. lia.
Qed.

Lemma Len_model_bound (p : list byte) (n : Z) :
  Len_model p = Ok n -> 0 <= n <= 8 * len (removelast p).
Proof.
  unfold Len_model. intros H.
  apply bind_Ok in H. destruct H as (t & _ & H).
  pose proof (byte_val_range t) as Ht.
  destruct (removelast p) as [| c cs].
  - injection H as <-. unfold len. simpl. lia.
  - assert (Hn : n = 8 * (len (c :: cs) - 1) + Z.min (byte_val t) 8)
      by congruence.
    rewrite Hn. unfold len. simpl length. lia.
Qed.

Lemma low_model_contract : @low_contract low_model.
Proof.
  split.
  - intros words idx i r b H. simpl in H. unfold rank_model in H.
    apply bind_Ok in H. destruct H as (w & _ & H). injection H as _ <-.
    assert (E1 : Z.land (Z.shiftr w (Z.land i 63)) 1
                 = Z.shiftr w (Z.land i 63) mod 2)
      by (apply (Z.land_ones (Z.shiftr w (Z.land i 63)) 1); lia).
    rewrite E1.
    pose proof (Z.mod_pos_bound (Z.shiftr w (Z.land i 63)) 2 ltac:(lia)).
    lia.
  - intros a p n Hcmp Hlen. simpl in Hcmp, Hlen.
    unfold StrCmpUpto_model in Hcmp. rewrite Hlen in Hcmp.
    cbn [bind] in Hcmp. injection Hcmp as Hcmp.
    apply cmp_bits_equal_length in Hcmp.
    pose proof (Len_model_bound p n Hlen) as Hn.
    rewrite !length_firstn, !bits_of_length in Hcmp.
    unfold len in *. lia.
Qed.

(** ** The demo tries are well formed *)

Lemma index_singleton {A : Type} (w a : A) (x : Z) :
  index [w] x = Ok a -> x = 0.
Proof.
  intros H. destruct (index_Ok [w] x a a H) as [Hr _].
  unfold len in Hr. simpl in Hr. lia.
Qed.

Lemma demo_node_id (ls : option VLenArray) (id : Z) qr0 qr :
  getNode (demoWith ls) id qr0 = Ok qr ->
  exists n : nat, (n < 64)%nat /\ id = Z.of_nat n.
Proof.
  unfold getNode. simpl NodeTypeBM. intros H.
  apply bind_Ok in H. destruct H as (p & Hrank & _).
  simpl in Hrank. unfold rank_model in Hrank.
  apply bind_Ok in Hrank. destruct Hrank as (w & Hw & _).
  apply index_singleton in Hw. rewrite shiftr_6 in Hw.
  apply Z.div_small_iff in Hw; [| lia].
  exists (Z.to_nat id). lia.
Qed.

(** The nodes of the demo trie: the root, or a leaf whose stored prefix, if
    any, is not empty. *)
Lemma demo_nodes (ls : option VLenArray) (id : Z) qr0 qr :
  getNode (demoWith ls) id qr0 = Ok qr ->
  (id = 0 /\ qr = demoRootOf qr0) \/
  (isInner qr = 0 /\ (hasLeafPrefix qr = true -> leafPrefix qr <> [])).
Proof.
  intros H.
  destruct (demo_node_id ls id qr0 qr H) as (n & Hn & ->).
  do 64 (destruct n as [| n];
         [ vm_compute in H; injection H as <-;
           first [ left; split; reflexivity
                 | right; split; [reflexivity | intros Hc; discriminate] ]
         | ]).
  lia.
Qed.

Lemma well_formed_demoWith (ls : option VLenArray) :
  well_formed (demoWith ls).
Proof.
  split.
  - intros id qr0 qr Hnode Hin.
    destruct (demo_nodes ls id qr0 qr Hnode) as [[_ ->] | [Hz _]];
      [| contradiction].
    simpl. repeat split; try lia; reflexivity.
  - intros id qr0 qr ithBit lch has _ _ _ _ _ qc0 qc Hc Hin.
    destruct (demo_nodes ls _ qc0 qc Hc) as [[_ ->] | [Hz _]];
      [reflexivity | contradiction].
  - intros id qr0 qr lch has Hnode Hin Hlc Hhas.
    destruct (demo_nodes ls id qr0 qr Hnode) as [[_ ->] | [Hz _]];
      [| contradiction].
    vm_compute in Hlc. injection Hlc as <- <-.
    eexists. eexists. split; [reflexivity | vm_compute; reflexivity].
  - intros id qr0 qr Hnode Hleaf.
    destruct (demo_nodes ls id qr0 qr Hnode) as [[_ ->] | [_ Hp]];
      [discriminate | exact Hp].
Qed.

Lemma well_formed_demo : well_formed demo.
Proof. exact (well_formed_demoWith (Leaves demoSlim)). Qed.

Lemma well_formed_demoNoLeaves : well_formed demoNoLeaves.
Proof. exact (well_formed_demoWith None). Qed.

(** ** The descent properties at the demo trie *)





(** * Further properties of the lookup code *)

Lemma Ok_inj {A : Type} (a b : A) : Ok a = Ok b -> a = b.
Proof. intros H. now injection H. Qed.

Section Lookup.

Context {L : Low} {V : Type}.

Implicit Types (st : SlimTrie V) (k : list byte) (qr : querySession).

(** ** The scratch record across [getNode] *)

Lemma getNode_leaf_frame st (nodeId : Z) qr0 qr :
  getNode st nodeId qr0 = Ok qr -> isInner qr = 0 ->
  same_query qr0 qr /\
  wordSize qr = wordSize qr0 /\ from qr = from qr0 /\ to qr = to qr0 /\
  bm qr = bm qr0 /\ hasInnerPrefix qr = false /\ innerPrefixLen qr = 0.
Proof.
  unfold getNode. intros H Hin.
  destruct (NodeTypeBM (inner st)) as [nt |]; [| discriminate].
  apply bind_Ok in H. destruct H as ([ii isIn] & ER & H).
  destruct (Z.eqb_spec isIn 0) as [-> | Hne].
  - assert (Hp : hasInnerPrefix qr = false /\ innerPrefixLen qr = 0).
    { clear - H. unfold getLeafPrefix in H. break_Ok H;
        injection H as <-; simpl; split; reflexivity. }
    apply getLeafPrefix_frame in H.
    destruct H as ((Hk1 & Hk2) & (H1 & H2 & H3 & H4 & _ & _)).
    simpl in *. unfold same_query. intuition congruence.
  - exfalso. apply bind_Ok in H. destruct H as (q1 & E1 & H).
    apply getInnerPrefix_frame in H. destruct H as (_ & HI & _).
    apply getInnerRange_frame in E1. destruct E1 as (_ & _ & E1 & _).
    destruct HI as (_ & _ & _ & _ & HI & _).
    rewrite HI, E1 in Hin. simpl in Hin. contradiction.
Qed.

(** X1.  [getNode] never changes the key or the key bit length of the
    scratch record.  Decoding an inner node leaves the leaf fields as they
    were, so [hasLeafPrefix] keeps the value it had; decoding a leaf leaves
    the bit range, the word size and the expanded bitmap of the last inner
    node as they were and reports no inner prefix. *)
Theorem getNode_keeps_query st (nodeId : Z) qr0 qr :
  getNode st nodeId qr0 = Ok qr ->
  key qr = key qr0 /\ keyBitLen qr = keyBitLen qr0 /\
  (isInner qr <> 0 ->
   ithLeaf qr = ithLeaf qr0 /\ hasLeafPrefix qr = hasLeafPrefix qr0 /\
   leafPrefix qr = leafPrefix qr0) /\
  (isInner qr = 0 ->
   wordSize qr = wordSize qr0 /\ from qr = from qr0 /\ to qr = to qr0 /\
   bm qr = bm qr0 /\ hasInnerPrefix qr = false /\ innerPrefixLen qr = 0).
Proof.
  intros H.
  destruct (Z.eq_dec (isInner qr) 0) as [Hz | Hnz].
  - destruct (getNode_leaf_frame st nodeId qr0 qr H Hz)
      as ((Hk1 & Hk2) & Hrest).
    split; [exact Hk2 |]. split; [exact Hk1 |].
    split; [intros Hc; contradiction | intros _; exact Hrest].
  - destruct (getNode_inner_frame st nodeId qr0 qr H Hnz)
      as ((Hk1 & Hk2) & Hleaf & _).
    split; [exact Hk2 |]. split; [exact Hk1 |].
    split; [intros _; exact Hleaf | intros Hc; contradiction].
Qed.

(** ** Labels and the bitmap of a node *)

Lemma getInnerRange_width st (ii : Z) qr qr' :
  getInnerRange st ii qr = Ok qr' ->
  (ii < BigInnerCnt (inner st) /\
   wordSize qr' = Const.bigWordSize /\
   from qr' = i32 (ii * Const.bigInnerSize) /\
   to qr' = i32 (from qr' + Const.bigInnerSize)) \/
  (BigInnerCnt (inner st) <= ii /\
   wordSize qr' = Const.wordSize /\
   (to qr' = i32 (from qr' + Const.innerSize) \/
    to qr' = i32 (from qr' + ShortSize (inner st)))).
Proof.
  unfold getInnerRange. intros H.
  destruct (Z.ltb_spec ii (BigInnerCnt (inner st))) as [Hlt | Hge].
  - injection H as <-. left. simpl. auto.
  - right. split; [exact Hge |].
    break_Ok H; injection H as <-; simpl; auto.
Qed.

Lemma label_range qr (i b : Z) :
  getLabelIdxOfKey qr i = Ok b ->
  0 <= b /\
  (wordSize qr = Const.bigWordSize -> b <= 256) /\
  (wordSize qr <> Const.bigWordSize -> b <= 16).
Proof.
  unfold getLabelIdxOfKey. intros H.
  destruct (i <? keyBitLen qr).
  2:{ injection H as <-. lia. }
  destruct (Z.eqb_spec (wordSize qr) Const.bigWordSize) as [Hw | Hw];
    apply bind_Ok in H; destruct H as (c & _ & H); apply Ok_inj in H;
    subst b; pose proof (byte_val_range c) as Hc.
  - split; [lia |]. split; [intros _; lia | intros Hn; contradiction].
  - assert (Hn : 0 <= Z.land (if Z.land i 7 <? 4
                              then Z.shiftr (byte_val c) 4
                              else byte_val c) 15 < 16).
    { destruct (Z.land i 7 <? 4).
      - rewrite high_nibble_code. unfold high_nibble.
        split; [apply Z.div_pos; lia | apply Z.div_lt_upper_bound; lia].
      - rewrite low_nibble_code. unfold low_nibble.
        apply Z.mod_pos_bound. lia. }
    split; [lia |]. split; [intros Hb; contradiction | intros _; lia].
Qed.


(** ** The neighbours of the three-way search *)

Lemma leftMost_loop_leaf st (fuel : nat) :
  forall idx qr r q',
    loop (leftMost_body st) fuel (idx, qr) = Ok (inl (r, q')) ->
    is_leaf st r.
Proof.
  induction fuel as [| n IH]; intros idx qr r q' H; [discriminate |].
  rewrite loop_S in H. apply bind_Ok in H. destruct H as (c & Hbody & H).
  unfold leftMost_body in Hbody.
  apply bind_Ok in Hbody. destruct Hbody as (q1 & Hnode & Hbody).
  destruct (Z.eqb_spec (isInner q1) 0) as [Hz | Hnz].
  - apply Ok_inj in Hbody. subst c. apply Ok_inj in H.
    injection H as <- <-. exact (getNode_leaf st idx qr q1 Hnode Hz).
  - apply bind_Ok in Hbody. destruct Hbody as ([r0 x] & _ & Hbody).
    apply Ok_inj in Hbody. subst c. exact (IH _ _ _ _ H).
Qed.

Lemma rightMost_loop_leaf st (fuel : nat) :
  forall idx r,
    loop (rightMost_body st) fuel idx = Ok (inl r) -> is_leaf st r.
Proof.
  induction fuel as [| n IH]; intros idx r H; [discriminate |].
  rewrite loop_S in H. apply bind_Ok in H. destruct H as (c & Hbody & H).
  unfold rightMost_body in Hbody.
  apply bind_Ok in Hbody. destruct Hbody as (q1 & Hnode & Hbody).
  destruct (Z.eqb_spec (isInner q1) 0) as [Hz | Hnz].
  - apply Ok_inj in Hbody. subst c. apply Ok_inj in H.
    injection H as <-. exact (getNode_leaf st idx _ q1 Hnode Hz).
  - apply bind_Ok in Hbody. destruct Hbody as ([r0 x] & _ & Hbody).
    apply Ok_inj in Hbody. subst c. exact (IH _ _ H).
Qed.

Lemma leftMost_leaf (fuel : nat) st (idx r : Z) :
  leftMost fuel st idx = Ok r -> is_leaf st r.
Proof.
  intros H. unfold leftMost in H.
  apply bind_Ok in H. destruct H as ([[r1 q1] | []] & Hloop & H).
  apply Ok_inj in H. subst r1.
  exact (leftMost_loop_leaf st fuel _ _ _ _ Hloop).
Qed.

Lemma rightMost_leaf (fuel : nat) st (idx r : Z) :
  rightMost fuel st idx = Ok r -> is_leaf st r.
Proof.
  intros H. unfold rightMost in H.
  apply bind_Ok in H. destruct H as ([r1 | []] & Hloop & H).
  apply Ok_inj in H. subst r1.
  exact (rightMost_loop_leaf st fuel _ _ Hloop).
Qed.

(** X3.  [leftMost] and [rightMost] return a leaf whenever they return, and
    they return their argument at once when it decodes as a leaf. *)
Theorem leftMost_rightMost_leaf (fuel : nat) st (idx : Z) :
  (forall r, leftMost fuel st idx = Ok r -> is_leaf st r) /\
  (forall r, rightMost fuel st idx = Ok r -> is_leaf st r) /\
  (forall q, getNode st idx (newSession 0 []) = Ok q -> isInner q = 0 ->
     leftMost (S fuel) st idx = Ok idx /\ rightMost (S fuel) st idx = Ok idx).
Proof.
  split; [| split].
  - intros r. apply leftMost_leaf.
  - intros r. apply rightMost_leaf.
  - intros q Hnode Hz. apply Z.eqb_eq in Hz.
    unfold leftMost, rightMost. rewrite !loop_S.
    unfold leftMost_body, rightMost_body. rewrite Hnode. cbn [bind].
    rewrite Hz. split; reflexivity.
Qed.

Lemma searchID_drill_leaves (fuel : nat) st (t : Z * Z * Z) (l e r : Z) :
  searchID_drill fuel st t = Ok (l, e, r) ->
  (l <> -1 -> is_leaf st l) /\ (r <> -1 -> is_leaf st r).
Proof.
  destruct t as [[l0 e0] r0]. unfold searchID_drill. intros H.
  apply bind_Ok in H. destruct H as (l1 & Hl & H).
  apply bind_Ok in H. destruct H as (r1 & Hr & H).
  apply Ok_inj in H. injection H as -> _ ->.
  split; intros Hne.
  - destruct (Z.eqb_spec l0 (-1)) as [-> | Hn]; cbn [negb] in Hl.
    + apply Ok_inj in Hl. congruence.
    + exact (rightMost_leaf fuel st l0 _ Hl).
  - destruct (Z.eqb_spec r0 (-1)) as [-> | Hn]; cbn [negb] in Hr.
    + apply Ok_inj in Hr. congruence.
    + exact (leftMost_leaf fuel st r0 _ Hr).
Qed.

Lemma getLeaf_of_leaf st (id : Z) :
  is_leaf st id ->
  getLeaf st id = (p <- getLeafIndex st id ;; getIthLeaf st (fst p)).
Proof.
  intros (nt & r & Hnt & Hrank). unfold getLeaf, getLeafIndex.
  rewrite Hnt, Hrank. reflexivity.
Qed.

Lemma GetID_result_is_leaf (fuel : nat) st k (id : Z) :
  well_formed st -> GetID fuel st k = Ok id -> id <> -1 -> is_leaf st id.
Proof.
  intros HW HG Hne. unfold GetID in HG.
  destruct (NodeTypeBM (inner st)).
  2:{ apply Ok_inj in HG. congruence. }
  cbv zeta in HG. unfold GetID_descent in HG.
  apply bind_Ok in HG. destruct HG as (r & Hloop & HG).
  pose proof (GetID_loop_leaf st k _ fuel HW 0 0 _ r eq_refl Hloop) as Hr.
  destruct r as [[[e i] q] | v].
  - unfold GetID_finish in HG.
    assert (Hid : id = e \/ id = -1).
    { destruct (LeafPrefixes (inner st)).
      2:{ apply Ok_inj in HG. auto. }
      destruct (i =? _); destruct (hasLeafPrefix q); cbn [negb] in HG;
        try (apply Ok_inj in HG; auto).
      apply bind_Ok in HG. destruct HG as (tail & _ & HG).
      destruct (negb _); apply Ok_inj in HG; auto. }
    destruct Hid as [-> | ->]; [exact Hr | contradiction].
  - apply Ok_inj in HG. congruence.
Qed.


(** ** How the queries compose *)


(** X6.  [RangeGet] agrees with [Search]: it returns the eq value of
    [Search] when the eq id is not -1, else the value of the left neighbour
    when there is one, else (nil, false). *)
Theorem RangeGet_agrees_with_Search (fuel : nat) st k (l e r : Z)
  (lVal eqVal rVal : option V) :
  searchID fuel st k = Ok (l, e, r) ->
  Search fuel st k = Ok (lVal, eqVal, rVal) ->
  RangeGet fuel st k
  = Ok (if negb (e =? -1) then (eqVal, true)
        else if l =? -1 then (None, false) else (lVal, true)).
Proof.
  intros HS HSe. unfold Search in HSe. unfold RangeGet.
  rewrite HS in *. cbn [bind] in *.
  apply bind_Ok in HSe. destruct HSe as (lv & Hlv & HSe).
  apply bind_Ok in HSe. destruct HSe as (ev & Hev & HSe).
  apply bind_Ok in HSe. destruct HSe as (rv & _ & HSe).
  apply Ok_inj in HSe. injection HSe as <- <- _.
  destruct (e =? -1); cbn [negb] in *.
  - destruct (l =? -1); cbn [negb] in *; [reflexivity |].
    rewrite Hlv. reflexivity.
  - rewrite Hev. reflexivity.
Qed.

(** ** The key tail after the descent *)


(** ** Labels and keys *)

Lemma nibble_labels k (m : Z) (b : byte) :
  0 <= m -> index k m = Ok b ->
  getLabelIdxOfKey (nibbleSession k) (8 * m) = Ok (1 + high_nibble b) /\
  getLabelIdxOfKey (nibbleSession k) (8 * m + 4) = Ok (1 + low_nibble b).
Proof.
  intros Hm Hb.
  destruct (index_Ok k m b b Hb) as [[_ Hlen] _].
  assert (H0 : Z.shiftr (8 * m) 3 = m).
  { rewrite Z.shiftr_div_pow2 by lia. change (2 ^ 3) with 8.
    rewrite Z.mul_comm. apply Z.div_mul. lia. }
  assert (H4 : Z.shiftr (8 * m + 4) 3 = m).
  { rewrite Z.shiftr_div_pow2 by lia. change (2 ^ 3) with 8.
    replace (8 * m + 4) with (4 + m * 8) by lia.
    rewrite Z.div_add by lia. reflexivity. }
  assert (L0 : Z.land (8 * m) 7 = 0).
  { change 7 with (Z.ones 3). rewrite Z.land_ones by lia.
    change (2 ^ 3) with 8. rewrite Z.mul_comm. apply Z.mod_mul. lia. }
  assert (L4 : Z.land (8 * m + 4) 7 = 4).
  { change 7 with (Z.ones 3). rewrite Z.land_ones by lia.
    change (2 ^ 3) with 8. replace (8 * m + 4) with (4 + m * 8) by lia.
    rewrite Z.mod_add by lia. reflexivity. }
  assert (B0 : (8 * m <? 8 * len k) = true) by (apply Z.ltb_lt; lia).
  assert (B4 : (8 * m + 4 <? 8 * len k) = true) by (apply Z.ltb_lt; lia).
  unfold getLabelIdxOfKey, nibbleSession. cbn [keyBitLen key wordSize
    set_wordSize newSession].
  change (Const.wordSize =? Const.bigWordSize) with false. cbv iota.
  rewrite B0, B4, H0, H4, L0, L4, Hb. cbn [bind].
  change (0 <? 4) with true. change (4 <? 4) with false. cbv iota.
  rewrite high_nibble_code, low_nibble_code. split; reflexivity.
Qed.

Lemma nibbles_rebuild_byte (b : byte) :
  byte_val b = 16 * high_nibble b + low_nibble b.
Proof.
  unfold high_nibble, low_nibble. apply Z.div_mod. lia.
Qed.

(** X8.  Label extraction loses nothing of the key: the labels a 4-bit node
    reads at the cursors [8m] and [8m+4] are 1 plus the two halves of byte
    [m], which they rebuild as [16 * (hi - 1) + (lo - 1)]; so two keys of
    the same length that give the same label at every nibble are the same
    key. *)
Theorem labels_determine_key (k1 k2 : list byte) :
  len k1 = len k2 ->
  (forall m, 0 <= m < len k1 ->
     getLabelIdxOfKey (nibbleSession k1) (8 * m)
     = getLabelIdxOfKey (nibbleSession k2) (8 * m) /\
     getLabelIdxOfKey (nibbleSession k1) (8 * m + 4)
     = getLabelIdxOfKey (nibbleSession k2) (8 * m + 4)) ->
  k1 = k2 /\
  (forall m b, 0 <= m -> index k1 m = Ok b ->
     exists hi lo,
       getLabelIdxOfKey (nibbleSession k1) (8 * m) = Ok hi /\
       getLabelIdxOfKey (nibbleSession k1) (8 * m + 4) = Ok lo /\
       byte_val b = 16 * (hi - 1) + (lo - 1)).
Proof.
  intros Hlen Hlab. split.
  - apply nth_error_ext. intros n.
    destruct (Nat.lt_ge_cases n (length k1)) as [Hn | Hn].
    + assert (Hm : 0 <= Z.of_nat n < len k1) by (unfold len; lia).
      destruct (index_in_range k1 (Z.of_nat n) Hm) as (b1 & Hb1).
      destruct (index_in_range k2 (Z.of_nat n) ltac:(lia)) as (b2 & Hb2).
      destruct (nibble_labels k1 (Z.of_nat n) b1 ltac:(lia) Hb1) as (Hh1 & Hl1).
      destruct (nibble_labels k2 (Z.of_nat n) b2 ltac:(lia) Hb2) as (Hh2 & Hl2).
      destruct (Hlab _ Hm) as (Eh & El).
      rewrite Hh1, Hh2 in Eh. rewrite Hl1, Hl2 in El.
      apply Ok_inj in Eh. apply Ok_inj in El.
      assert (b1 = b2).
      { apply byte_val_inj.
        rewrite (nibbles_rebuild_byte b1), (nibbles_rebuild_byte b2). lia. }
      subst b2. unfold index in Hb1, Hb2.
      destruct (Z.of_nat n <? 0); [discriminate |].
      rewrite Nat2Z.id in Hb1, Hb2.
      destruct (nth_error k1 n); [| discriminate].
      destruct (nth_error k2 n); [| discriminate]. congruence.
    + assert (Hn2 : (length k2 <= n)%nat) by (unfold len in Hlen; lia).
      apply nth_error_None in Hn. apply nth_error_None in Hn2. congruence.
  - intros m b Hm Hb.
    destruct (nibble_labels k1 m b Hm Hb) as (Hh & Hl).
    exists (1 + high_nibble b), (1 + low_nibble b).
    split; [exact Hh |]. split; [exact Hl |].
    rewrite (nibbles_rebuild_byte b). lia.
Qed.

(** ** Leaf payloads *)

Lemma slice_Ok {A : Type} (l : list A) (lo hi : Z) (t : list A) :
  slice l lo hi = Ok t ->
  0 <= lo <= hi /\ hi <= len l /\
  t = firstn (Z.to_nat (hi - lo)) (skipn (Z.to_nat lo) l).
Proof.
  unfold slice.
  destruct (Z.leb_spec 0 lo); cbn [andb]; [| discriminate].
  destruct (Z.leb_spec lo hi); cbn [andb]; [| discriminate].
  destruct (Z.leb_spec hi (len l)); [| discriminate].
  intros E. apply Ok_inj in E. subst t.
  split; [lia |]. split; [lia | reflexivity].
Qed.

Lemma slice_in_range {A : Type} (l : list A) (lo hi : Z) :
  0 <= lo <= hi -> hi <= len l ->
  slice l lo hi = Ok (firstn (Z.to_nat (hi - lo)) (skipn (Z.to_nat lo) l)).
Proof.
  intros H1 H2. unfold slice.
  destruct (Z.leb_spec 0 lo); [| lia].
  destruct (Z.leb_spec lo hi); [| lia].
  destruct (Z.leb_spec hi (len l)); [| lia]. reflexivity.
Qed.

Lemma index_slice {A : Type} (l : list A) (a n j : Z) :
  0 <= a -> 0 <= j < n ->
  index (firstn (Z.to_nat n) (skipn (Z.to_nat a) l)) j = index l (a + j).
Proof.
  intros Ha Hj. unfold index.
  destruct (Z.ltb_spec j 0); [lia |].
  destruct (Z.ltb_spec (a + j) 0); [lia |].
  rewrite nth_error_firstn.
  destruct (Nat.ltb_spec (Z.to_nat j) (Z.to_nat n)); [| lia].
  rewrite nth_error_skipn.
  replace (Z.to_nat a + Z.to_nat j)%nat with (Z.to_nat (a + j)) by lia.
  reflexivity.
Qed.


Lemma firstn_add_skipn {A : Type} (a b : nat) (l : list A) :
  firstn (a + b) l = firstn a l ++ firstn b (skipn a l).
Proof.
  revert l. induction a as [| a IH]; intros l; [reflexivity |].
  destruct l as [| x l]; simpl.
  - now rewrite firstn_nil.
  - now rewrite IH.
Qed.

(** X10.  The payloads tile the pool: with leaves of [size] bytes, of which
    the pool holds at least [n], [getIthLeafBytes] returns a payload for
    every ordinal below [n], and the payloads of the ordinals 0 .. n-1, one
    after the other, are the first [n * size] bytes of the pool. *)
Theorem leaf_payloads_tile st ls (n : nat) :
  Leaves (inner st) = Some ls ->
  0 <= GetEncodedSize (encoder st) ->
  Z.of_nat n * GetEncodedSize (encoder st) <= len (Bytes ls) ->
  len (Bytes ls) < 2 ^ 31 ->
  exists ps,
    length ps = n /\
    (forall i, (i < n)%nat ->
       getIthLeafBytes st (Z.of_nat i) = Ok (Some (nth i ps []))) /\
    concat ps
    = firstn (Z.to_nat (Z.of_nat n * GetEncodedSize (encoder st))) (Bytes ls).
Proof.
  intros Hls Hsize. set (size := GetEncodedSize (encoder st)) in *.
  induction n as [| n IH]; intros Hfit Hpool.
  - exists []. split; [reflexivity |]. split; [intros i Hi; lia |].
    reflexivity.
  - destruct IH as (ps & Hlen & Hget & Hcat); [nia | exact Hpool |].
    assert (Hs : i32 size = size) by (apply i32_small; nia).
    assert (Hi : i32 (Z.of_nat n * size) = Z.of_nat n * size)
      by (apply i32_small; nia).
    assert (Hn : getIthLeafBytes st (Z.of_nat n)
                 = Ok (Some (firstn (Z.to_nat size)
                               (skipn (Z.to_nat (Z.of_nat n * size))
                                  (Bytes ls))))).
    { unfold getIthLeafBytes. rewrite Hls. cbv zeta. fold size.
      rewrite Hs, Hi, (i32_small (Z.of_nat n * size + size)) by nia.
      rewrite slice_in_range by nia.
      replace (Z.of_nat n * size + size - Z.of_nat n * size) with size by lia.
      reflexivity. }
    exists (ps ++ [firstn (Z.to_nat size)
                     (skipn (Z.to_nat (Z.of_nat n * size)) (Bytes ls))]).
    split; [rewrite length_app; simpl; lia |]. split.
    + intros i Hlt. destruct (Nat.eq_dec i n) as [-> | Hne].
      * rewrite app_nth2 by lia. rewrite Hlen, Nat.sub_diag. exact Hn.
      * rewrite app_nth1 by lia. apply Hget. lia.
    + rewrite concat_app, Hcat. cbn [concat]. rewrite app_nil_r.
      replace (Z.to_nat (Z.of_nat (S n) * size))
        with (Z.to_nat (Z.of_nat n * size) + Z.to_nat size)%nat by nia.
      rewrite firstn_add_skipn. reflexivity.
Qed.

End Lookup.

(** * Properties of the conversion of older formats *)

Lemma lor_shiftl_add (a b n : Z) :
  0 <= n -> 0 <= a < 2 ^ n -> Z.lor a (Z.shiftl b n) = a + b * 2 ^ n.
Proof.
  intros Hn Ha.
  assert (Hland : Z.land a (Z.shiftl b n) = 0).
  { apply Z.bits_inj'. intros k Hk.
    rewrite Z.land_spec, Z.shiftl_spec, Z.bits_0 by lia.
    destruct (Z.ltb_spec k n).
    - rewrite (Z.testbit_neg_r b) by lia. apply andb_false_r.
    - rewrite <- (Z.mod_small a (2 ^ n)) by lia.
      rewrite Z.mod_pow2_bits_high by lia. reflexivity. }
  rewrite <- Z.lxor_lor by exact Hland.
  rewrite <- Z.add_nocarry_lxor by exact Hland.
  rewrite Z.shiftl_mul_pow2 by lia. reflexivity.
Qed.

Lemma index_skipn {A : Type} (l : list A) (a j : Z) :
  0 <= a -> 0 <= j ->
  index (skipn (Z.to_nat a) l) j = index l (a + j).
Proof.
  intros Ha Hj. unfold index.
  destruct (Z.ltb_spec j 0); [lia |].
  destruct (Z.ltb_spec (a + j) 0); [lia |].
  rewrite nth_error_skipn.
  replace (Z.to_nat a + Z.to_nat j)%nat with (Z.to_nat (a + j)) by lia.
  reflexivity.
Qed.

Section ConversionProperties.

Context {L : Low} {G : Legacy} {V : Type}.

(** X11.  The step read from the format before 0.5.10 is a bit count on a
    nibble boundary: 0 for a node without a step, else 4 times the stored
    count less one, the decrement taken in [uint16]; so it is a multiple of
    4 between 0 and 262140, and a stored count of 0 gives 262140, never a
    negative step. *)
Theorem getStepBefore000510_aligned (steps : U16) (nid r : Z) :
  getStepBefore000510 steps nid = Ok r ->
  0 <= r <= 262140 /\ r mod 4 = 0 /\
  (bmhas (U16_Bitmaps steps) nid = false -> r = 0) /\
  (forall stp found,
     bmhas (U16_Bitmaps steps) nid = true ->
     U16_Get steps nid = Ok (stp, found) ->
     r = 4 * ((stp - 1) mod 2 ^ 16)).
Proof.
  unfold getStepBefore000510. intros H.
  destruct (bmhas (U16_Bitmaps steps) nid).
  - apply bind_Ok in H. destruct H as ([stp found] & Hget & H).
    apply bind_Ok in H. destruct H as (u & _ & H).
    apply Ok_inj in H.
    pose proof (Z.mod_pos_bound (stp - 1) (2 ^ 16) ltac:(lia)) as Hm.
    rewrite i32_small in H by lia.
    split; [lia |]. split.
    + subst r. apply Z.mod_mul. lia.
    + split; [discriminate |].
      intros stp' found' _ Hget'. rewrite Hget in Hget'.
      apply Ok_inj in Hget'. injection Hget' as <- _. lia.
  - apply Ok_inj in H. subst r.
    split; [lia |]. split; [reflexivity |].
    split; [reflexivity | discriminate].
Qed.

Lemma Uint32_low16 (tl : list byte) (v : Z) :
  LittleEndian_Uint32 tl = Ok v ->
  exists b0 b1,
    index tl 0 = Ok b0 /\ index tl 1 = Ok b1 /\
    Z.land v 65535 = byte_val b0 + 256 * byte_val b1.
Proof.
  unfold LittleEndian_Uint32. intros H.
  apply bind_Ok in H. destruct H as (b3 & _ & H).
  apply bind_Ok in H. destruct H as (b0 & H0 & H).
  apply bind_Ok in H. destruct H as (b1 & H1 & H).
  apply bind_Ok in H. destruct H as (b2 & _ & H).
  apply Ok_inj in H. exists b0, b1. split; [exact H0 |]. split; [exact H1 |].
  pose proof (byte_val_range b0) as R0. pose proof (byte_val_range b1) as R1.
  pose proof (byte_val_range b2) as R2. pose proof (byte_val_range b3) as R3.
  rewrite (lor_shiftl_add (byte_val b0) (byte_val b1) 8) in H by lia.
  rewrite (lor_shiftl_add (byte_val b0 + byte_val b1 * 2 ^ 8)
             (byte_val b2) 16) in H by lia.
  rewrite (lor_shiftl_add _ (byte_val b3) 24) in H by lia.
  subst v. change 65535 with (Z.ones 16). rewrite Z.land_ones by lia.
  replace (byte_val b0 + byte_val b1 * 2 ^ 8 + byte_val b2 * 2 ^ 16
           + byte_val b3 * 2 ^ 24)
    with (byte_val b0 + 256 * byte_val b1
          + (byte_val b2 + 256 * byte_val b3) * 2 ^ 16) by lia.
  rewrite Z.mod_add by lia. apply Z.mod_small. lia.
Qed.

(** X12.  [getBM16Child] returns the stored 16-bit child bitmap moved up by
    one bit, so bit 0, the leaf bit, is always clear.  For the older layout
    that keeps the children in [Elts], the bitmap is the low 16 bits of the
    little-endian word at byte [4 * eltIdx] (the rank kept in the upper 16
    bits is dropped), and the result fits 17 bits. *)
Theorem getBM16Child_bitmap (ch : Array32) (idx r : Z) :
  getBM16Child ch idx = Ok r ->
  Z.testbit r 0 = false /\
  (Z.land (Flags ch) ArrayFlagIsBitmap = 0 ->
   0 <= r < 2 ^ 17 /\
   exists eltIdx bitset b0 b1,
     bitmap_Rank64 (Bitmaps ch) (Offsets ch) idx = Ok (eltIdx, bitset) /\
     index (Elts ch) (i32 (eltIdx * 4)) = Ok b0 /\
     index (Elts ch) (i32 (eltIdx * 4) + 1) = Ok b1 /\
     r = 2 * (byte_val b0 + 256 * byte_val b1)).
Proof.
  unfold getBM16Child. intros H.
  apply bind_Ok in H. destruct H as ([eltIdx bitset] & Hrank & H).
  apply bind_Ok in H. destruct H as (u & _ & H).
  apply bind_Ok in H. destruct H as (bm16 & Hbm & H).
  apply Ok_inj in H. split.
  - subst r. unfold u64. rewrite Z.testbit_mod_pow2 by lia.
    rewrite Z.shiftl_mul_pow2 by lia. change (2 ^ 1) with 2.
    rewrite Z.mul_comm, Z.testbit_even_0. reflexivity.
  - intros Hflag. apply Z.eqb_eq in Hflag. rewrite Hflag in Hbm.
    apply bind_Ok in Hbm. destruct Hbm as (tl & Htl & Hbm).
    apply bind_Ok in Hbm. destruct Hbm as (v & Hv & Hbm).
    apply Ok_inj in Hbm.
    destruct (Uint32_low16 tl v Hv) as (b0 & b1 & H0 & H1 & Hlow).
    destruct (slice_from_Ok _ _ _ Htl) as ((Hoff & _) & _ & Hskip).
    rewrite Hskip in H0, H1.
    rewrite index_skipn in H0, H1 by lia. rewrite Z.add_0_r in H0.
    pose proof (byte_val_range b0) as R0.
    pose proof (byte_val_range b1) as R1.
    assert (Hr : r = 2 * (byte_val b0 + 256 * byte_val b1)).
    { subst r bm16. rewrite Hlow. unfold u64.
      rewrite Z.shiftl_mul_pow2 by lia. change (2 ^ 1) with 2.
      rewrite Z.mod_small by lia. lia. }
    split; [lia |].
    exists eltIdx, bitset, b0, b1. auto.
Qed.

(** X13.  [before000512FixLeafSize] acts once: it leaves alone a trie
    without leaves and a leaf store that has its [PresenceBM], so running
    it on its own result changes nothing.  On a store without [PresenceBM]
    it panics when [FixedSize] is already set, and when the codec reports
    the size 0, by which it would divide. *)
Theorem FixLeafSize_acts_once (enc : Encoder V) (leaves : option Old.Leaves) :
  (forall r, before000512FixLeafSize enc leaves = Ok r ->
             before000512FixLeafSize enc r = Ok r) /\
  (forall ls, leaves = Some ls -> Old.PresenceBM ls <> None ->
              before000512FixLeafSize enc leaves = Ok leaves) /\
  (forall ls, leaves = Some ls -> Old.PresenceBM ls = None ->
              Old.FixedSize ls <> 0 ->
              before000512FixLeafSize enc leaves = Panic Impossible) /\
  (forall ls, leaves = Some ls -> Old.PresenceBM ls = None ->
              Old.FixedSize ls = 0 -> i32 (GetEncodedSize enc) = 0 ->
              before000512FixLeafSize enc leaves = Panic IndexOutOfRange).
Proof.
  split; [| split; [| split]].
  - intros r H. unfold before000512FixLeafSize in H.
    destruct leaves as [ls |].
    2:{ apply Ok_inj in H. subst r. reflexivity. }
    destruct (Old.PresenceBM ls) as [p |] eqn:Hp.
    { apply Ok_inj in H. subst r. unfold before000512FixLeafSize.
      now rewrite Hp. }
    destruct (negb (Old.FixedSize ls =? 0)); [discriminate |].
    destruct (i32 (GetEncodedSize enc) =? 0); [discriminate |].
    destruct (_ <? 0); [discriminate |].
    apply Ok_inj in H. subst r. reflexivity.
  - intros ls -> Hp. unfold before000512FixLeafSize.
    destruct (Old.PresenceBM ls); [reflexivity | contradiction].
  - intros ls -> Hp Hf. unfold before000512FixLeafSize. rewrite Hp.
    apply Z.eqb_neq in Hf. now rewrite Hf.
  - intros ls -> Hp Hf Hz. unfold before000512FixLeafSize. rewrite Hp, Hf, Hz.
    reflexivity.
Qed.

(** X14.  When [before000512FixLeafSize] fills in a leaf store, it keeps
    the bytes, sets [FixedSize] to the size of the codec and [N] and
    [EltCnt] to the number of whole payloads in the pool, and gives the
    store a [PresenceBM] built over the ordinals 0 .. N-1; bytes left over
    after the last whole payload, fewer than [FixedSize], belong to no
    leaf. *)
Theorem FixLeafSize_counts (enc : Encoder V) (ls ls' : Old.Leaves) :
  Old.PresenceBM ls = None ->
  before000512FixLeafSize enc (Some ls) = Ok (Some ls') ->
  Old.Bytes ls' = Old.Bytes ls /\
  Old.FixedSize ls' = i32 (GetEncodedSize enc) /\
  Old.FixedSize ls' <> 0 /\
  Old.EltCnt ls' = Old.N ls' /\
  0 <= Old.N ls' /\
  Old.PresenceBM ls'
  = Some (newBM (map Z.of_nat (seq 0 (Z.to_nat (Old.N ls')))) (Old.N ls')
            [x72; x36; x34]) /\
  (0 < Old.FixedSize ls' -> len (Old.Bytes ls) < 2 ^ 31 ->
   Old.N ls' * Old.FixedSize ls' <= len (Old.Bytes ls)
   < (Old.N ls' + 1) * Old.FixedSize ls').
Proof.
  intros Hp H. unfold before000512FixLeafSize in H. rewrite Hp in H.
  destruct (negb (Old.FixedSize ls =? 0)); [discriminate |].
  destruct (Z.eqb_spec (i32 (GetEncodedSize enc)) 0) as [| Hnz];
    [discriminate |].
  set (fs := i32 (GetEncodedSize enc)) in *.
  set (n := i32 (Z.quot (i32 (len (Old.Bytes ls))) fs)) in *.
  destruct (Z.ltb_spec n 0); [discriminate |].
  apply Ok_inj in H. injection H as <-. cbn.
  split; [reflexivity |]. split; [reflexivity |]. split; [exact Hnz |].
  split; [reflexivity |]. split; [lia |]. split; [reflexivity |].
  intros Hfs Hlen. unfold n.
  pose proof (i32_range (GetEncodedSize enc)) as Rfs. fold fs in Rfs.
  assert (Hpos : 0 <= len (Old.Bytes ls)) by (unfold len; lia).
  rewrite (i32_small (len (Old.Bytes ls))) by lia.
  rewrite Z.quot_div_nonneg by lia.
  assert (Hq : 0 <= len (Old.Bytes ls) / fs <= len (Old.Bytes ls)).
  { split; [apply Z.div_pos; lia |].
    apply Z.div_le_upper_bound; [lia | nia]. }
  rewrite i32_small by lia.
  pose proof (Z.div_mod (len (Old.Bytes ls)) fs ltac:(lia)) as D.
  pose proof (Z.mod_pos_bound (len (Old.Bytes ls)) fs Hfs) as M. nia.
Qed.

Lemma go_copy_length {A : Type} (dst src : list A) :
  length (go_copy dst src) = length dst.
Proof.
  unfold go_copy. rewrite length_app, length_firstn, length_skipn. lia.
Qed.

Lemma prefixToBitstr_round (pbm : Bitmap) (i : Z) (bytes : list byte)
  (c : ctl (Z * list byte) Empty_set) :
  prefixToBitstr_body pbm (i, bytes) = Ok c ->
  exists i' bytes',
    (c = Next (i', bytes') \/ c = Brk (i', bytes')) /\
    len bytes' = len bytes.
Proof.
  unfold prefixToBitstr_body. intros H.
  apply bind_Ok in H. destruct H as ([from to] & _ & H).
  apply bind_Ok in H. destruct H as (old & Hold & H).
  apply bind_Ok in H. destruct H as (c0 & _ & H).
  apply bind_Ok in H. destruct H as (bitLen & _ & H).
  apply bind_Ok in H. destruct H as (tl & _ & H).
  apply bind_Ok in H. destruct H as (newPref & _ & H).
  destruct (slice_Ok _ _ _ _ Hold) as ((Hlo & Hle) & Hhi & Hbs).
  assert (Hlen : len (firstn (Z.to_nat from) bytes ++ go_copy old newPref
                      ++ skipn (Z.to_nat to) bytes) = len bytes).
  { unfold len in *.
    rewrite !length_app, go_copy_length, length_firstn, length_skipn.
    subst old. rewrite length_firstn, length_skipn. lia. }
  destruct (_ =? _); apply Ok_inj in H; subst c; eauto.
Qed.

Lemma prefixToBitstr_loop (pbm : Bitmap) (fuel : nat) :
  forall i bytes i' bytes',
    loop (prefixToBitstr_body pbm) fuel (i, bytes) = Ok (inl (i', bytes')) ->
    len bytes' = len bytes.
Proof.
  induction fuel as [| n IH]; intros i bytes i' bytes' H; [discriminate |].
  rewrite loop_S in H. apply bind_Ok in H. destruct H as (c & Hbody & H).
  destruct (prefixToBitstr_round pbm i bytes c Hbody)
    as (i1 & b1 & [-> | ->] & Hlen).
  - rewrite <- Hlen. exact (IH _ _ _ _ H).
  - apply Ok_inj in H. injection H as _ <-. exact Hlen.
Qed.

(** X15.  [before000512InnerPrefixTobitstr] rewrites the prefixes in place:
    whenever it returns, the byte pool has the length it had, and the
    counts, the presence bitmap and the positions bitmap, which delimit the
    prefixes in the pool, are the ones it was given.  Without inner
    prefixes, without a positions bitmap or with an empty pool it changes
    nothing. *)
Theorem InnerPrefixTobitstr_in_place (fuel : nat)
  (ips r : option VLenArray) :
  before000512InnerPrefixTobitstr fuel ips = Ok r ->
  (ips = None -> r = None) /\
  (forall a, ips = Some a ->
     exists a',
       r = Some a' /\
       len (Bytes a') = len (Bytes a) /\
       N a' = N a /\ EltCnt a' = EltCnt a /\
       PresenceBM a' = PresenceBM a /\ PositionBM a' = PositionBM a /\
       FixedSize a' = FixedSize a /\
       (PositionBM a = None \/ Bytes a = [] -> a' = a)).
Proof.
  unfold before000512InnerPrefixTobitstr. intros H. split.
  - intros ->. apply Ok_inj in H. congruence.
  - intros a ->.
    destruct (PositionBM a) as [pbm |] eqn:Hp.
    2:{ apply Ok_inj in H. subst r. exists a. repeat split; auto. }
    destruct (Z.gtb_spec (len (Bytes a)) 0) as [Hpos | Hemp].
    2:{ apply Ok_inj in H. subst r. exists a. repeat split; auto. }
    apply bind_Ok in H. destruct H as ([[i' bytes'] | []] & Hloop & H).
    apply Ok_inj in H. subst r. eexists. split; [reflexivity |]. cbn.
    split; [exact (prefixToBitstr_loop pbm fuel _ _ _ _ Hloop) |].
    repeat split; auto.
    intros [Hc | Hc]; [discriminate |].
    rewrite Hc in Hpos. unfold len in Hpos. simpl in Hpos. lia.
Qed.

End ConversionProperties.

(** ** The properties of the lookups and of the conversion on concrete data *)

Lemma getNode_keeps_query_witness :
  exists qr,
    getNode demo 2 (newSession 8 [x61]) = Ok qr /\
    key qr = [x61] /\ keyBitLen qr = 8 /\ wordSize qr = 0 /\
    hasInnerPrefix qr = false.
Proof.
  lazymatch eval vm_compute in (getNode demo 2 (newSession 8 [x61])) with
  | Ok ?q =>
      assert (H : getNode demo 2 (newSession 8 [x61]) = Ok q)
        by (vm_compute; reflexivity);
      exists q; split; [exact H |];
      destruct (getNode_keeps_query demo 2 (newSession 8 [x61]) q H)
        as (Hk & Hl & _ & Hleaf);
      destruct (Hleaf eq_refl) as (Hw & _ & _ & _ & Hp & _)
  end.
  split; [exact Hk |]. split; [exact Hl |]. split; [exact Hw | exact Hp].
Defined.


Lemma leftMost_rightMost_leaf_witness :
  is_leaf demo 1 /\ is_leaf demo 3 /\
  leftMost 1 demo 2 = Ok 2 /\ rightMost 1 demo 2 = Ok 2.
Proof.
  assert (Hl : leftMost 5 demo 0 = Ok 1) by (vm_compute; reflexivity).
  assert (Hr : rightMost 5 demo 0 = Ok 3) by (vm_compute; reflexivity).
  destruct (leftMost_rightMost_leaf 5 demo 0) as (HL & HR & _).
  split; [exact (HL 1 Hl) |]. split; [exact (HR 3 Hr) |].
  destruct (leftMost_rightMost_leaf 0 demo 2) as (_ & _ & Hat).
  lazymatch eval vm_compute in (getNode demo 2 (newSession 0 [])) with
  | Ok ?q =>
      assert (H : getNode demo 2 (newSession 0 []) = Ok q)
        by (vm_compute; reflexivity);
      exact (Hat q H eq_refl)
  end.
Defined.



Lemma RangeGet_agrees_with_Search_witness :
  searchID 5 demo [x62] = Ok (2, -1, 3) /\
  Search 5 demo [x62] = Ok (Some [x02], None, Some [x03]) /\
  RangeGet 5 demo [x62] = Ok (Some [x02], true).
Proof.
  assert (HS : searchID 5 demo [x62] = Ok (2, -1, 3))
    by (vm_compute; reflexivity).
  assert (HSe : Search 5 demo [x62] = Ok (Some [x02], None, Some [x03]))
    by (vm_compute; reflexivity).
  split; [exact HS |]. split; [exact HSe |].
  exact (RangeGet_agrees_with_Search 5 demo [x62] 2 (-1) 3
           (Some [x02]) None (Some [x03]) HS HSe).
Defined.


Lemma labels_determine_key_witness :
  exists hi lo,
    getLabelIdxOfKey (nibbleSession [x61]) 0 = Ok hi /\
    getLabelIdxOfKey (nibbleSession [x61]) 4 = Ok lo /\
    97 = 16 * (hi - 1) + (lo - 1).
Proof.
  assert (Hlab : forall m, 0 <= m < len [x61] ->
            getLabelIdxOfKey (nibbleSession [x61]) (8 * m)
            = getLabelIdxOfKey (nibbleSession [x61]) (8 * m) /\
            getLabelIdxOfKey (nibbleSession [x61]) (8 * m + 4)
            = getLabelIdxOfKey (nibbleSession [x61]) (8 * m + 4))
    by (intros m _; split; reflexivity).
  destruct (labels_determine_key [x61] [x61] eq_refl Hlab) as (_ & Hb).
  assert (H0 : 0 <= 0) by lia.
  assert (Hi : index [x61] 0 = Ok x61) by (vm_compute; reflexivity).
  destruct (Hb 0 x61 H0 Hi) as (hi & lo & Hhi & Hlo & Hv).
  exists hi, lo. split; [exact Hhi |]. split; [exact Hlo | exact Hv].
Defined.


Lemma leaf_payloads_tile_witness :
  exists ps,
    length ps = 3%nat /\
    getIthLeafBytes demo 2 = Ok (Some (nth 2 ps [])) /\
    concat ps = [x01; x02; x03].
Proof.
  assert (H0 : 0 <= GetEncodedSize (encoder demo))
    by (vm_compute; discriminate).
  assert (H1 : Z.of_nat 3 * GetEncodedSize (encoder demo)
               <= len [x01; x02; x03]) by (vm_compute; discriminate).
  assert (H2 : len [x01; x02; x03] < 2 ^ 31) by (vm_compute; reflexivity).
  destruct (leaf_payloads_tile demo _ 3 eq_refl H0 H1 H2)
    as (ps & Hn & Hget & Hcat).
  exists ps. split; [exact Hn |].
  split; [exact (Hget 2%nat (le_n 3)) | exact Hcat].
Defined.

Lemma getStepBefore000510_aligned_witness :
  getStepBefore000510 demoSteps 0 = Ok 8 /\
  0 <= 8 <= 262140 /\ 8 mod 4 = 0.
Proof.
  assert (H : getStepBefore000510 demoSteps 0 = Ok 8)
    by (vm_compute; reflexivity).
  destruct (getStepBefore000510_aligned (G := legacy_model) demoSteps 0 8 H)
    as (R & A & _).
  split; [exact H |]. split; [exact R | exact A].
Defined.

Lemma getBM16Child_bitmap_witness :
  getBM16Child demoChildren 0 = Ok 12 /\
  Z.testbit 12 0 = false /\ 0 <= 12 < 2 ^ 17.
Proof.
  assert (H : getBM16Child demoChildren 0 = Ok 12)
    by (vm_compute; reflexivity).
  destruct (getBM16Child_bitmap demoChildren 0 12 H) as (B & E).
  destruct (E eq_refl) as (R & _).
  split; [exact H |]. split; [exact B | exact R].
Defined.

Lemma FixLeafSize_acts_once_witness :
  exists r,
    before000512FixLeafSize rawBytes (Some demoOldLeaves) = Ok r /\
    before000512FixLeafSize rawBytes r = Ok r.
Proof.
  lazymatch eval vm_compute in
    (before000512FixLeafSize rawBytes (Some demoOldLeaves)) with
  | Ok ?r =>
      assert (H : before000512FixLeafSize rawBytes (Some demoOldLeaves)
                  = Ok r) by (vm_compute; reflexivity);
      exists r; split; [exact H |];
      destruct (FixLeafSize_acts_once rawBytes (Some demoOldLeaves))
        as (Honce & _);
      exact (Honce r H)
  end.
Defined.

Lemma FixLeafSize_counts_witness :
  exists ls',
    before000512FixLeafSize rawBytes (Some demoOldLeaves) = Ok (Some ls') /\
    Old.Bytes ls' = [x01; x02; x03] /\
    Old.EltCnt ls' = Old.N ls' /\
    Old.N ls' * Old.FixedSize ls' <= 3 < (Old.N ls' + 1) * Old.FixedSize ls'.
Proof.
  lazymatch eval vm_compute in
    (before000512FixLeafSize rawBytes (Some demoOldLeaves)) with
  | Ok (Some ?r) =>
      assert (H : before000512FixLeafSize rawBytes (Some demoOldLeaves)
                  = Ok (Some r)) by (vm_compute; reflexivity);
      exists r; split; [exact H |];
      destruct (FixLeafSize_counts rawBytes demoOldLeaves r eq_refl H)
        as (Hb & _ & _ & He & _ & _ & Hn)
  end.
  split; [exact Hb |]. split; [exact He |].
  apply Hn; vm_compute; reflexivity.
Defined.

Lemma InnerPrefixTobitstr_in_place_witness :
  exists a',
    before000512InnerPrefixTobitstr 3 (Some demoOldPrefixes) = Ok (Some a') /\
    len (Bytes a') = 3 /\ PositionBM a' = PositionBM demoOldPrefixes.
Proof.
  lazymatch eval vm_compute in
    (before000512InnerPrefixTobitstr 3 (Some demoOldPrefixes)) with
  | Ok ?r =>
      assert (H : before000512InnerPrefixTobitstr 3 (Some demoOldPrefixes)
                  = Ok r) by (vm_compute; reflexivity);
      destruct (InnerPrefixTobitstr_in_place 3 (Some demoOldPrefixes) r H)
        as (_ & Hs);
      destruct (Hs demoOldPrefixes eq_refl)
        as (a' & Hr & Hlen & _ & _ & _ & Hp & _)
  end.
  exists a'. rewrite <- Hr. split; [exact H |].
  split; [exact Hlen | exact Hp].
Defined.
